(** * Monkey interpreter: the parser and the interactive shell

    A shallow embedding of [src/parser/parser.go] and [src/repl/repl.go],
    and the properties of the specification checked against it.

    The packages [token], [ast], [lexer], [object] and [evaluator] are
    imported by these two files but their sources are not part of the
    development; what the parser and the shell need of them is modelled from
    the specification (sections 3 and 4.1) or taken as a parameter, and is
    marked as such below. *)

From Stdlib Require Import List String Ascii Bool Arith Lia ZArith.
Import ListNotations.

Set Implicit Arguments.
Set Warnings "-register-all".

(* ------------------------------------------------------------------ *)
(** ** Package [token] *)

Module token.

(** Modelled from the spec: the declaration of [token.TokenType]
    (src/token/token.go is missing).  The kinds are those of section 3:
    identifiers, integer literals, the operators, the delimiters, the
    keywords, end-of-input and the illegal token of section 4.1.  [IF_]
    stands for the kind [IF], which is a reserved word here. *)
Inductive TokenType : Set :=
| ILLEGAL | EOF
| IDENT | INT
| ASSIGN | PLUS | MINUS | BANG | ASTERISK | SLASH
| LT | GT | EQ | NOT_EQ
| COMMA | SEMICOLON
| LPAREN | RPAREN | LBRACE | RBRACE
| FUNCTION | LET | TRUE | FALSE | IF_ | ELSE | RETURN.

Definition TokenType_eq_dec (a b : TokenType) : {a = b} + {a <> b}.
Proof. decide equality. Defined.

(** The comparison [a == b] of two token kinds. *)
Definition TokenType_eqb (a b : TokenType) : bool :=
  if TokenType_eq_dec a b then true else false.

(** Modelled from the spec: the declaration of [token.Token]
    (src/token/token.go is missing).  The parser reads the fields [Type]
    and [Literal] only; [Type_] stands for [Type].  The source position
    that section 3 lists is never read by the parser and is left out. *)
Record Token : Set := { Type_ : TokenType; Literal : string }.

(** What the parser needs of package [token] and cannot be read off the
    sources: how a token kind prints under the verb [%s], and the zero
    value of [Token] with which a freshly allocated [Parser] starts. *)
Class Decls : Set := {
  String_ : TokenType -> string;
  zero : Token
}.

End token.

(* ------------------------------------------------------------------ *)
(** ** Package [ast] *)

Module ast.
Import token.

(** [ast.Identifier], as the parser builds it: [Token] and [Value]. *)
Record Identifier : Set := {
  Identifier_Token : Token;
  Identifier_Value : string
}.

(** Modelled from the spec: the node types of package [ast]
    (src/ast/ast.go is missing), after section 3.  The fields [Token] and
    [Name] of a let statement, [Token] of a return statement and
    [Statements] of a program are the ones parser.go writes.  A field that
    holds a pointer or an interface is an [option]: [None] is [nil]. *)
Inductive Expression : Set :=
| Ident (i : Identifier)
| IntegerLiteral (tok : Token) (value : Z)
| BooleanLiteral (tok : Token) (value : bool)
| PrefixExpression (tok : Token) (operator : string) (operand : Expression)
| InfixExpression (tok : Token) (operator : string)
                  (left right : Expression)
| IfExpression (tok : Token) (condition : Expression)
               (consequence : list Statement)
               (alternative : option (list Statement))
| FunctionLiteral (tok : Token) (parameters : list Identifier)
                  (body : list Statement)
| CallExpression (tok : Token) (callee : Expression)
                 (arguments : list Expression)

(** A value of the interface [ast.Statement]: its dynamic type and the
    pointer it holds.  [LetStmt None] is the interface value that holds a
    nil [*ast.LetStatement]; it is not the nil interface. *)
with Statement : Set :=
| LetStmt (node : option LetStatement)
| ReturnStmt (node : option ReturnStatement)
| ExpressionStmt (tok : Token) (expr : option Expression)
| BlockStmt (tok : Token) (statements : list Statement)

with LetStatement : Set :=
| Build_LetStatement (Token_ : Token) (Name : option Identifier)
                     (Value : option Expression)

with ReturnStatement : Set :=
| Build_ReturnStatement (Token_ : Token) (ReturnValue : option Expression).

Definition LetStatement_Token (s : LetStatement) : Token :=
  match s with Build_LetStatement t _ _ => t end.
Definition LetStatement_Name (s : LetStatement) : option Identifier :=
  match s with Build_LetStatement _ n _ => n end.
Definition LetStatement_Value (s : LetStatement) : option Expression :=
  match s with Build_LetStatement _ _ v => v end.

Definition ReturnStatement_Token (s : ReturnStatement) : Token :=
  match s with Build_ReturnStatement t _ => t end.
Definition ReturnStatement_ReturnValue (s : ReturnStatement)
  : option Expression :=
  match s with Build_ReturnStatement _ v => v end.

(** [stmt.Name = name] on a let statement. *)
Definition set_Name (s : LetStatement) (name : option Identifier)
  : LetStatement :=
  Build_LetStatement (LetStatement_Token s) name (LetStatement_Value s).

Record Program : Set := { Statements : list Statement }.

End ast.

(* ------------------------------------------------------------------ *)
(** ** Package [lexer] *)

Module lexer.
Import token.

(** Modelled from the spec: [lexer.Lexer] and its method [NextToken]
    (src/lexer/lexer.go is missing).  After section 4.1 a lexer produces
    its tokens one at a time and never looks back, and once its cursor has
    passed the end of the buffer it produces the end-of-input token on
    every call.  A lexer is therefore the list of tokens it has yet to
    produce before the end of its input. *)
Definition Lexer : Set := list Token.

Definition EOF_Token : Token := {| Type_ := EOF; Literal := "" |}.

Definition NextToken (l : Lexer) : Token * Lexer :=
  match l with
  | [] => (EOF_Token, [])
  | tok :: rest => (tok, rest)
  end.

End lexer.

(* ------------------------------------------------------------------ *)
(** ** Package [parser] *)

Module parser.
Import token ast lexer.

(** [parser.Parser].  The maps [prefixParseFns] and [infixParseFns] are nil
    in every parser that [New] builds and are read by no method; only
    [registerPrefix] and [registerInfix], which nothing calls, mention
    them.  They are left out. *)
Record Parser : Set := {
  l : Lexer;
  curToken : Token;
  peekToken : Token;
  errors : list string
}.

Definition set_tokens (p : Parser) (lx : Lexer) (cur peek : Token) : Parser :=
  {| l := lx; curToken := cur; peekToken := peek; errors := errors p |}.

Definition set_errors (p : Parser) (errs : list string) : Parser :=
  {| l := l p; curToken := curToken p; peekToken := peekToken p;
     errors := errs |}.

(** *** The monad of parser methods

    A method with receiver [p *Parser] reads and writes the parser; a loop
    of the source may also never leave.  A method that returns an [A] is a
    function from the parser before the call to [Some] of the returned
    value and the parser after it, or to [None] when the fuel given to its
    loops was not enough for it to return. *)
Definition M (A : Type) : Type := Parser -> option (A * Parser).

Definition ret {A : Type} (a : A) : M A := fun p => Some (a, p).

Definition bind {A B : Type} (m : M A) (k : A -> M B) : M B :=
  fun p => match m p with
           | Some (a, p') => k a p'
           | None => None
           end.

Definition gets {A : Type} (f : Parser -> A) : M A := fun p => Some (f p, p).

Definition modify (f : Parser -> Parser) : M unit := fun p => Some (tt, f p).

Definition out_of_fuel {A : Type} : M A := fun _ => None.

Declare Scope parser_scope.
Delimit Scope parser_scope with parser.
Notation "x <- m ;; k" := (bind m (fun x => k))
  (at level 61, m at next level, right associativity) : parser_scope.
Notation "m ;; k" := (bind m (fun _ => k))
  (at level 61, right associativity) : parser_scope.
Open Scope parser_scope.

Section Methods.
Context {decls : Decls}.

(** [func (p *Parser) Errors() []string] *)
Definition Errors : M (list string) := gets errors.

(** [fmt.Sprintf] with the format of [peekErrors] and its two arguments. *)
Definition peek_message (required actual : TokenType) : string :=
  ("expected next token to be " ++ String_ required ++ ", got "
   ++ String_ actual ++ " instead")%string.

(** [func (p *Parser) peekErrors(t token.TokenType)] *)
Definition peekErrors (t : TokenType) : M unit :=
  peek <- gets peekToken ;;
  let msg := peek_message t (Type_ peek) in
  modify (fun p => set_errors p (errors p ++ [msg])).

(** The two assignments of [nextToken]: [p.curToken = p.peekToken] and
    [p.peekToken = p.l.NextToken()]. *)
Definition advance (p : Parser) : Parser :=
  let (tok, lx) := NextToken (l p) in
  set_tokens p lx (peekToken p) tok.

(** [func (p *Parser) nextToken()] *)
Definition nextToken : M unit := modify advance.

(** [func (p *Parser) curTokenIs(t token.TokenType) bool] *)
Definition curTokenIs (t : TokenType) : M bool :=
  gets (fun p => TokenType_eqb (Type_ (curToken p)) t).

(** [func (p *Parser) peekTokenIs(t token.TokenType) bool] *)
Definition peekTokenIs (t : TokenType) : M bool :=
  gets (fun p => TokenType_eqb (Type_ (peekToken p)) t).

(** [func (p *Parser) expectPeek(t token.TokenType) bool] *)
Definition expectPeek (t : TokenType) : M bool :=
  is_t <- peekTokenIs t ;;
  if is_t then
    nextToken ;;
    ret true
  else
    peekErrors t ;;
    ret false.

(** The loop [for !p.curTokenIs(token.SEMICOLON) { p.nextToken() }] that ends
    both [parseLetStatment] and [parseReturnStatment]; one unit of fuel
    pays for one test of its condition. *)
Fixpoint skip_to_SEMICOLON (fuel : nat) : M unit :=
  match fuel with
  | O => out_of_fuel
  | S fuel' =>
      at_semicolon <- curTokenIs SEMICOLON ;;
      if at_semicolon then ret tt
      else
        nextToken ;;
        skip_to_SEMICOLON fuel'
  end.

(** [func (p *Parser) parseLetStatment() *ast.LetStatement] *)
Definition parseLetStatment (fuel : nat) : M (option LetStatement) :=
  cur <- gets curToken ;;
  let stmt := Build_LetStatement cur None None in
  ok <- expectPeek IDENT ;;
  if negb ok then ret None
  else
    cur <- gets curToken ;;
    let stmt :=
      set_Name stmt
        (Some {| Identifier_Token := cur; Identifier_Value := Literal cur |}) in
    ok <- expectPeek ASSIGN ;;
    if negb ok then ret None
    else
      skip_to_SEMICOLON fuel ;;
      ret (Some stmt).

(** [func (p *Parser) parseReturnStatment() *ast.ReturnStatement] *)
Definition parseReturnStatment (fuel : nat) : M (option ReturnStatement) :=
  cur <- gets curToken ;;
  let stmt := Build_ReturnStatement cur None in
  nextToken ;;
  skip_to_SEMICOLON fuel ;;
  ret (Some stmt).

(** [func (p *Parser) parseStatement() ast.Statement].  The result is [None]
    for the nil interface of the [default] branch.  In the other two
    branches a pointer is converted to the interface [ast.Statement]: the
    result is an interface value that holds that pointer, also when the
    pointer is nil. *)
Definition parseStatement (fuel : nat) : M (option Statement) :=
  cur <- gets curToken ;;
  match Type_ cur with
  | LET =>
      node <- parseLetStatment fuel ;;
      ret (Some (LetStmt node))
  | RETURN =>
      node <- parseReturnStatment fuel ;;
      ret (Some (ReturnStmt node))
  | _ => ret None
  end.

(** The loop of [ParseProgram]; [stmts] is [program.Statements].  One unit
    of fuel pays for one test of the condition; the statement parsed in an
    iteration gets what is left. *)
Fixpoint ParseProgram_loop (fuel : nat) (stmts : list Statement)
  : M (list Statement) :=
  match fuel with
  | O => out_of_fuel
  | S fuel' =>
      at_eof <- curTokenIs EOF ;;
      if at_eof then ret stmts
      else
        stmt <- parseStatement fuel' ;;
        let stmts :=
          match stmt with
          | Some s => stmts ++ [s]
          | None => stmts
          end in
        nextToken ;;
        ParseProgram_loop fuel' stmts
  end.

(** [func (p *Parser) ParseProgram() *ast.Program] *)
Definition ParseProgram (fuel : nat) : M Program :=
  stmts <- ParseProgram_loop fuel [] ;;
  ret {| Statements := stmts |}.

(** [func New(l *lexer.Lexer) *Parser] *)
Definition New (lx : Lexer) : Parser :=
  let p := {| l := lx; curToken := zero; peekToken := zero; errors := [] |} in
  (* p.nextToken(); p.nextToken() *)
  advance (advance p).

End Methods.

(** *** Names for the statements of the properties

    A token that does not stop the loop [skip_to_SEMICOLON], and the
    parser whose diagnostics are [errs] and that has the tokens [ts]
    before it: the first one is its current token, the second one its
    peek token, the others are still in its lexer.  Every parser is of
    this shape (lemma [parser_at_eta]); it is how the theorems below name
    parser states. *)
Definition not_SEMICOLON (t : Token) : Prop := Type_ t <> SEMICOLON.

(** The tokens [ts] are none, or the last of them is a semicolon. *)
Fixpoint ends_in_SEMICOLON (ts : list Token) : Prop :=
  match ts with
  | [] => True
  | t :: ts' =>
      match ts' with
      | [] => Type_ t = SEMICOLON
      | _ :: _ => ends_in_SEMICOLON ts'
      end
  end.

Definition parser_at (errs : list string) (ts : list Token) : Parser :=
  {| l := tl (tl ts);
     curToken := hd EOF_Token ts;
     peekToken := hd EOF_Token (tl ts);
     errors := errs |}.

End parser.

(* ------------------------------------------------------------------ *)
(** ** Package [repl] *)

Module repl.
Import token ast lexer parser.

Definition nl : string := String (ascii_of_nat 10) EmptyString.
Definition tab : string := String (ascii_of_nat 9) EmptyString.
Definition dq : string := String (ascii_of_nat 34) EmptyString.

Definition MONKEY_FACE : string :=
  String.concat nl ([
    "";
    "            __,__";
    "   .--.  .-" ++ dq ++ "     " ++ dq ++ "-.  .--.";
    "  / .. \/  .-. .-.  \/ .. \";
    " | |  '|  /   Y   \  |'  | |";
    " | \   \  \ 0 | 0 /  /   / |";
    "  \ '- ,\.-" ++ dq ++ dq ++ dq ++ dq ++ dq ++ dq ++ dq ++ "-./, -' /";
    "   ''-' /_   ^ ^   _\ '-''";
    "       |  \._   _./  |";
    "       \   \ '~' /   /";
    "        '._ '-=-' _.'";
    "           '-----'";
    ""
  ])%string.

Definition PROMPT : string := ">>".
Definition DEBUG : bool := false.

(** What a run of the shell does to the outside, in order: a
    [fmt.Print(s)] on the standard output, an [io.WriteString(out, s)], and
    a call [evaluator.Eval(program)]. *)
Inductive Event : Set :=
| Print (s : string)
| WriteString (s : string)
| Eval_call (program : Program).

(** [func printParserErrors(out io.Writer, errors []string)] *)
Definition printParserErrors (errors : list string) : list Event :=
  [ WriteString MONKEY_FACE;
    WriteString ("Woops! We ran into some monkey business here!" ++ nl);
    WriteString (" parser errors:" ++ nl) ]
  ++ map (fun msg => WriteString (tab ++ msg ++ nl)) errors.

Section Shell.
Context {decls : Decls}.

(** The parts of the packages [lexer], [object], [evaluator] and [ast] that
    [Start] calls and whose sources are missing: [lexer.New] from a line to
    the lexer over it, the type [object.Object], [evaluator.Eval] with the
    Program as its only argument and taken as a function of it ([None] is
    a nil result), the method [Inspect] of an object and the method
    [String] of a program. *)
Variable lexer_New : string -> Lexer.
Variable Object : Type.
Variable Eval : Program -> option Object.
Variable Inspect : Object -> string.
Variable Program_String : Program -> string.

(** The body of the loop of [Start] from [line := scanner.Text()] on, for a
    line that was scanned.  [None]: the call of [ParseProgram] has not
    returned within [fuel]. *)
Definition Start_line (fuel : nat) (line : string) : option (list Event) :=
  let lx := lexer_New line in
  let p := New lx in
  match ParseProgram fuel p with
  | None => None
  | Some (program, p) =>
      if negb (List.length (errors p) =? 0) then
        Some (printParserErrors (errors p))
      else
        (* len(p.Errors()) is 0 *)
        let evaluated := Eval program in
        Some ([Eval_call program]
              ++ match evaluated with
                 | Some obj => [WriteString (Inspect obj); WriteString nl]
                 | None => []
                 end
              ++ (if DEBUG
                  then [WriteString "DEBUG AST: ";
                        WriteString (Program_String program);
                        WriteString nl]
                  else []))
  end.

(** [func Start(in io.Reader, out io.Writer)].  [input] holds the lines
    that the scanner over [in] delivers, in order.  The result is the trace
    of the run and whether [Start] returns: it does not when a line keeps
    the parser busy for ever, and the trace then ends with the prompt of
    that line. *)
Fixpoint Start (fuel : nat) (input : list string) : list Event * bool :=
  match input with
  | [] => ([Print PROMPT], true)
  | line :: rest =>
      match Start_line fuel line with
      | None => ([Print PROMPT], false)
      | Some events =>
          let (events', returns) := Start fuel rest in
          (Print PROMPT :: events ++ events', returns)
      end
  end.

End Shell.

(** The programs that a trace hands to the evaluator, in order. *)
Fixpoint Eval_calls (events : list Event) : list Program :=
  match events with
  | [] => []
  | Eval_call program :: rest => program :: Eval_calls rest
  | _ :: rest => Eval_calls rest
  end.

End repl.

(* ------------------------------------------------------------------ *)
(** ** Sample inputs *)

Module samples.
Import token ast lexer parser repl.

(** A rendering of the token kinds, each by the name under which sections
    3 and 8 of the specification list it, and a zero token.  The theorems
    hold for every choice of the two; the samples need one. *)
Definition kind_name (t : TokenType) : string :=
  match t with
  | ILLEGAL => "ILLEGAL" | EOF => "EOF"
  | IDENT => "IDENT" | INT => "INT"
  | ASSIGN => "ASSIGN" | PLUS => "PLUS" | MINUS => "MINUS" | BANG => "BANG"
  | ASTERISK => "ASTERISK" | SLASH => "SLASH"
  | LT => "LT" | GT => "GT" | EQ => "EQ" | NOT_EQ => "NOT_EQ"
  | COMMA => "COMMA" | SEMICOLON => "SEMICOLON"
  | LPAREN => "LPAREN" | RPAREN => "RPAREN"
  | LBRACE => "LBRACE" | RBRACE => "RBRACE"
  | FUNCTION => "FUNCTION" | LET => "LET" | TRUE => "TRUE"
  | FALSE => "FALSE" | IF_ => "IF" | ELSE => "ELSE" | RETURN => "RETURN"
  end.

#[export] Instance sample_Decls : Decls :=
  {| String_ := kind_name;
     zero := {| Type_ := ILLEGAL; Literal := "" |} |}.

Definition tok (t : TokenType) (lit : string) : Token :=
  {| Type_ := t; Literal := lit |}.

(** The tokens of [1 + 2 * 3;] *)
Definition sum_product : Lexer :=
  [tok INT "1"; tok PLUS "+"; tok INT "2"; tok ASTERISK "*"; tok INT "3";
   tok SEMICOLON ";"].

(** The tokens of [(1 + 2) * 3;] *)
Definition grouped_product : Lexer :=
  [tok LPAREN "("; tok INT "1"; tok PLUS "+"; tok INT "2"; tok RPAREN ")";
   tok ASTERISK "*"; tok INT "3"; tok SEMICOLON ";"].

(** The tokens of [let x = 5;] *)
Definition let_x_5 : Lexer :=
  [tok LET "let"; tok IDENT "x"; tok ASSIGN "="; tok INT "5";
   tok SEMICOLON ";"].

(** The tokens of [let x = 5], with no semicolon at its end. *)
Definition let_x_5_open : Lexer :=
  [tok LET "let"; tok IDENT "x"; tok ASSIGN "="; tok INT "5"].

(** The tokens of the malformed [let x 5;] *)
Definition let_x_no_assign : Lexer :=
  [tok LET "let"; tok IDENT "x"; tok INT "5"; tok SEMICOLON ";"].

(** The tokens of [return 5;] *)
Definition return_5 : Lexer :=
  [tok RETURN "return"; tok INT "5"; tok SEMICOLON ";"].

(** The tokens of [return 5], with no semicolon at its end. *)
Definition return_5_open : Lexer := [tok RETURN "return"; tok INT "5"].

(** The tokens of [x;] *)
Definition just_x : Lexer := [tok IDENT "x"; tok SEMICOLON ";"].

(** The lexer over each of the sample lines, by the token kinds of section
    3; any other line is taken as empty. *)
Definition sample_lexer_New (line : string) : Lexer :=
  if String.eqb line "let x = 5;" then let_x_5
  else if String.eqb line "x;" then just_x
  else if String.eqb line "let x 5;" then let_x_no_assign
  else if String.eqb line "return 5;" then return_5
  else [].

(** An evaluator that has no result for any program, and one whose result
    is the number of statements of the program. *)
Definition no_result (_ : Program) : option nat := None.
Definition show_count (n : nat) : string :=
  String (ascii_of_nat (48 + n mod 10)) EmptyString.
Definition no_String (_ : Program) : string := EmptyString.

End samples.

(* ------------------------------------------------------------------ *)
(** ** More sample inputs *)

Module more_samples.
Import token ast lexer parser repl samples.

(** The tokens of [let x 5; let y = 1; return y;] *)
Definition mixed : Lexer :=
  [tok LET "let"; tok IDENT "x"; tok INT "5"; tok SEMICOLON ";";
   tok LET "let"; tok IDENT "y"; tok ASSIGN "="; tok INT "1";
   tok SEMICOLON ";";
   tok RETURN "return"; tok IDENT "y"; tok SEMICOLON ";"].

(** The Program that [ParseProgram] returns on [mixed]. *)
Definition mixed_program : Program :=
  {| Statements :=
       [ LetStmt None;
         LetStmt (Some (Build_LetStatement (tok LET "let")
           (Some {| Identifier_Token := tok IDENT "y";
                    Identifier_Value := "y" |}) None));
         ReturnStmt (Some (Build_ReturnStatement (tok RETURN "return")
                             None)) ] |}.

(** The parser that [ParseProgram] leaves on [mixed]. *)
Definition mixed_final : Parser :=
  parser_at ["expected next token to be ASSIGN, got INT instead"%string] [].

(** The Program of [let x = 5;] *)
Definition let_x_program : Program :=
  {| Statements :=
       [ LetStmt (Some (Build_LetStatement (tok LET "let")
           (Some {| Identifier_Token := tok IDENT "x";
                    Identifier_Value := "x" |}) None)) ] |}.



(** The tokens of [let 5;] *)
Definition let_5 : Lexer := [tok LET "let"; tok INT "5"; tok SEMICOLON ";"].

(** The lexer over the sample lines, as [sample_lexer_New], and over the
    line [let x = 5] with no semicolon. *)
Definition open_lexer_New (line : string) : Lexer :=
  if String.eqb line "let x = 5" then let_x_5_open
  else sample_lexer_New line.

End more_samples.

(* ------------------------------------------------------------------ *)
(** ** Names for further properties of the parser *)

Module parser_props.
Import token ast lexer parser.

(** The result [r] of a method on a parser, as it reads when the parser had
    the diagnostics [errs] on top: they stay in front of the diagnostics
    of [r]. *)
Definition after_errors {A : Type} (errs : list string)
           (r : option (A * Parser)) : option (A * Parser) :=
  match r with
  | Some (a, q) => Some (a, set_errors q (errs ++ errors q))
  | None => None
  end.

(** A method whose run does not read the diagnostics: from a parser with
    the diagnostics [errs] before the tokens [ts] it does what it does from
    the parser with none, and keeps [errs] in front. *)
Definition framed {A : Type} (m : M A) : Prop :=
  forall (errs : list string) (ts : list Token),
    m (parser_at errs ts) = after_errors errs (m (parser_at [] ts)).

(** [n] calls of [p.nextToken()], one after the other. *)
Fixpoint nextTokens (n : nat) : M unit :=
  match n with
  | O => ret tt
  | S n' => nextToken ;; nextTokens n'
  end.

(** An entry of [program.Statements] that holds a nil [*ast.LetStatement]. *)
Definition is_nil_let (s : Statement) : bool :=
  match s with
  | LetStmt None => true
  | _ => false
  end.

(** An entry of [program.Statements] that holds a node, not a nil
    pointer. *)
Definition holds_node (s : Statement) : Prop :=
  match s with
  | LetStmt (Some _) | ReturnStmt (Some _) => True
  | _ => False
  end.

(** What the parser writes into a node: a let statement has its LET token,
    an identifier token with its literal as name, and no value; a return
    statement has its RETURN token and no return value. *)
Definition built_by_parser (s : Statement) : Prop :=
  match s with
  | LetStmt None => True
  | LetStmt (Some node) =>
      Type_ (LetStatement_Token node) = LET
      /\ (exists ident : Token,
            Type_ ident = IDENT
            /\ LetStatement_Name node
               = Some {| Identifier_Token := ident;
                         Identifier_Value := Literal ident |})
      /\ LetStatement_Value node = None
  | ReturnStmt (Some node) =>
      Type_ (ReturnStatement_Token node) = RETURN
      /\ ReturnStatement_ReturnValue node = None
  | _ => False
  end.

End parser_props.

(* ------------------------------------------------------------------ *)
(** ** Names for properties of the shell *)

Module shell_props.
Import token ast lexer parser repl.

Section Lines.
Context {decls : Decls}.
Variable lexer_New : string -> Lexer.

(** The Programs of the lines of [input] that are parsed without a
    diagnostic, in the order of the lines, up to the first line on which
    [ParseProgram] does not return within [fuel].  The Program of a line is
    computed from that line alone, and from no evaluator. *)
Fixpoint line_Programs (fuel : nat) (input : list string) : list Program :=
  match input with
  | [] => []
  | line :: rest =>
      match ParseProgram fuel (New (lexer_New line)) with
      | None => []
      | Some (program, p) =>
          if negb (List.length (errors p) =? 0)
          then line_Programs fuel rest
          else program :: line_Programs fuel rest
      end
  end.

End Lines.
End shell_props.

(* ------------------------------------------------------------------ *)
(** * Properties *)

Import token ast lexer parser repl samples.
Import more_samples parser_props shell_props.

(** ** Token kinds and parser states *)

Lemma TokenType_eqb_eq (a b : TokenType) : TokenType_eqb a b = true <-> a = b.
Proof.
  unfold TokenType_eqb. destruct (TokenType_eq_dec a b); split;
    intros; congruence.
Qed.

Lemma TokenType_eqb_neq (a b : TokenType) :
  TokenType_eqb a b = false <-> a <> b.
Proof.
  unfold TokenType_eqb. destruct (TokenType_eq_dec a b); split;
    intros; congruence.
Qed.

Lemma TokenType_eqb_refl (a : TokenType) : TokenType_eqb a a = true.
Proof. now apply TokenType_eqb_eq. Qed.

Lemma parser_at_eta (p : Parser) :
  p = parser_at (errors p) (curToken p :: peekToken p :: l p).
Proof. destruct p; reflexivity. Qed.

Lemma advance_parser_at (errs : list string) (t : Token) (ts : list Token) :
  advance (parser_at errs (t :: ts)) = parser_at errs ts.
Proof. destruct ts as [|a [|b ts]]; reflexivity. Qed.

Lemma advance_parser_at_nil (errs : list string) :
  advance (parser_at errs []) = parser_at errs [].
Proof. reflexivity. Qed.

Lemma advance_eta (p : Parser) :
  advance p = parser_at (errors p) (peekToken p :: l p).
Proof. rewrite (parser_at_eta p) at 1. apply advance_parser_at. Qed.

Lemma advance_errors (p : Parser) : errors (advance p) = errors p.
Proof. unfold advance. destruct (NextToken (l p)); reflexivity. Qed.

Lemma New_parser_at {decls : Decls} (lx : Lexer) : New lx = parser_at [] lx.
Proof. destruct lx as [|a [|b [|c lx]]]; reflexivity. Qed.

(** Unfolds the operations of the monad [M] and the methods that are one
    read or one write of the parser. *)
Ltac unfold_M :=
  unfold curTokenIs, peekTokenIs, nextToken, peekErrors;
  unfold bind, ret, gets, modify, out_of_fuel.

(** ** The loop that skips to the next semicolon *)

Lemma skip_to_SEMICOLON_step (fuel : nat) (p : Parser) :
  skip_to_SEMICOLON (S fuel) p =
  if TokenType_eqb (Type_ (curToken p)) SEMICOLON then Some (tt, p)
  else skip_to_SEMICOLON fuel (advance p).
Proof.
  simpl. unfold_M.
  destruct (TokenType_eqb (Type_ (curToken p)) SEMICOLON); reflexivity.
Qed.

(** With no semicolon among the tokens before the parser the loop never
    ends: past the end of the input the current token is the end-of-input
    token for ever. *)
Lemma skip_to_SEMICOLON_diverges (fuel : nat) :
  forall (errs : list string) (ts : list Token),
    Forall not_SEMICOLON ts ->
    skip_to_SEMICOLON fuel (parser_at errs ts) = None.
Proof.
  induction fuel as [|fuel IH]; intros errs ts Hts; [reflexivity|].
  rewrite skip_to_SEMICOLON_step.
  destruct ts as [|t ts].
  - simpl. rewrite advance_parser_at_nil. now apply IH.
  - inversion Hts as [|? ? Ht Hts']; subst.
    replace (curToken (parser_at errs (t :: ts))) with t by reflexivity.
    apply TokenType_eqb_neq in Ht. rewrite Ht.
    rewrite advance_parser_at. now apply IH.
Qed.

(** With a semicolon among them the loop stops at the first one. *)
Lemma skip_to_SEMICOLON_finds (es : list Token) :
  forall (fuel : nat) (errs : list string) (semi : Token) (rest : list Token),
    Forall not_SEMICOLON es ->
    Type_ semi = SEMICOLON ->
    List.length es < fuel ->
    skip_to_SEMICOLON fuel (parser_at errs (es ++ semi :: rest))
    = Some (tt, parser_at errs (semi :: rest)).
Proof.
  induction es as [|e es IH]; intros fuel errs semi rest Hes Hsemi Hfuel;
    (destruct fuel as [|fuel]; [simpl in Hfuel; lia|]);
    rewrite skip_to_SEMICOLON_step.
  - simpl. rewrite Hsemi. reflexivity.
  - inversion Hes as [|? ? He Hes']; subst.
    replace (curToken (parser_at errs ((e :: es) ++ semi :: rest))) with e
      by reflexivity.
    apply TokenType_eqb_neq in He. rewrite He.
    simpl app. rewrite advance_parser_at.
    apply IH; auto. simpl in Hfuel. lia.
Qed.

Lemma ends_in_SEMICOLON_tail (t : Token) (ts : list Token) :
  ends_in_SEMICOLON (t :: ts) -> ends_in_SEMICOLON ts.
Proof. destruct ts; simpl; auto. Qed.

Lemma ends_in_SEMICOLON_split (ts : list Token) :
  ts <> [] ->
  ends_in_SEMICOLON ts ->
  exists es semi rest,
    ts = es ++ semi :: rest
    /\ Forall not_SEMICOLON es
    /\ Type_ semi = SEMICOLON
    /\ ends_in_SEMICOLON rest.
Proof.
  induction ts as [|t ts IH]; intros Hne Hends; [congruence|].
  destruct (TokenType_eq_dec (Type_ t) SEMICOLON) as [Hsemi|Hsemi].
  - exists [], t, ts. repeat split; auto.
    now apply ends_in_SEMICOLON_tail in Hends.
  - destruct ts as [|t' ts]; [simpl in Hends; congruence|].
    destruct IH as (es & semi & rest & Hts & Hes & Hs & Hrest);
      [discriminate|exact Hends|].
    exists (t :: es), semi, rest. rewrite Hts. repeat split; auto.
Qed.

(** ** More fuel changes no result *)

Lemma skip_to_SEMICOLON_mono (fuel : nat) :
  forall (fuel' : nat) (p : Parser) (r : unit * Parser),
    fuel <= fuel' ->
    skip_to_SEMICOLON fuel p = Some r ->
    skip_to_SEMICOLON fuel' p = Some r.
Proof.
  induction fuel as [|fuel IH]; intros fuel' p r Hle Hrun; [discriminate|].
  destruct fuel' as [|fuel']; [lia|].
  rewrite skip_to_SEMICOLON_step in *.
  destruct (TokenType_eqb (Type_ (curToken p)) SEMICOLON); auto.
  apply IH; auto. lia.
Qed.

Section Parsing.
Context {decls : Decls}.

Lemma expectPeek_eq (t : TokenType) (p : Parser) :
  expectPeek t p =
  if TokenType_eqb (Type_ (peekToken p)) t
  then Some (true, advance p)
  else Some (false,
             set_errors p (errors p ++ [peek_message t (Type_ (peekToken p))])).
Proof.
  unfold expectPeek. unfold_M.
  destruct (TokenType_eqb (Type_ (peekToken p)) t); reflexivity.
Qed.

Lemma parseLetStatment_eq (fuel : nat) (p : Parser) :
  parseLetStatment fuel p =
  match expectPeek IDENT p with
  | Some (true, p1) =>
      match expectPeek ASSIGN p1 with
      | Some (true, p2) =>
          match skip_to_SEMICOLON fuel p2 with
          | Some (_, p3) =>
              Some (Some (Build_LetStatement (curToken p)
                            (Some {| Identifier_Token := curToken p1;
                                     Identifier_Value :=
                                       Literal (curToken p1) |})
                            None), p3)
          | None => None
          end
      | Some (false, p2) => Some (None, p2)
      | None => None
      end
  | Some (false, p1) => Some (None, p1)
  | None => None
  end.
Proof.
  unfold parseLetStatment. unfold_M.
  destruct (expectPeek IDENT p) as [[[|] p1]|]; simpl; auto.
  destruct (expectPeek ASSIGN p1) as [[[|] p2]|]; simpl; auto.
Qed.

Lemma parseReturnStatment_eq (fuel : nat) (p : Parser) :
  parseReturnStatment fuel p =
  match skip_to_SEMICOLON fuel (advance p) with
  | Some (_, p') => Some (Some (Build_ReturnStatement (curToken p) None), p')
  | None => None
  end.
Proof.
  unfold parseReturnStatment. unfold_M.
  destruct (skip_to_SEMICOLON fuel (advance p)) as [[[] p']|]; reflexivity.
Qed.

Lemma parseStatement_eq (fuel : nat) (p : Parser) :
  parseStatement fuel p =
  match Type_ (curToken p) with
  | LET =>
      match parseLetStatment fuel p with
      | Some (node, p') => Some (Some (LetStmt node), p')
      | None => None
      end
  | RETURN =>
      match parseReturnStatment fuel p with
      | Some (node, p') => Some (Some (ReturnStmt node), p')
      | None => None
      end
  | _ => Some (None, p)
  end.
Proof.
  unfold parseStatement. unfold_M.
  destruct (Type_ (curToken p)); reflexivity.
Qed.

Lemma ParseProgram_loop_step (fuel : nat) (stmts : list Statement)
      (p : Parser) :
  ParseProgram_loop (S fuel) stmts p =
  if TokenType_eqb (Type_ (curToken p)) EOF then Some (stmts, p)
  else
    match parseStatement fuel p with
    | Some (Some s, p') => ParseProgram_loop fuel (stmts ++ [s]) (advance p')
    | Some (None, p') => ParseProgram_loop fuel stmts (advance p')
    | None => None
    end.
Proof.
  simpl. unfold_M.
  destruct (TokenType_eqb (Type_ (curToken p)) EOF); [reflexivity|].
  destruct (parseStatement fuel p) as [[[s|] p']|]; reflexivity.
Qed.

Lemma ParseProgram_eq (fuel : nat) (p : Parser) :
  ParseProgram fuel p =
  match ParseProgram_loop fuel [] p with
  | Some (stmts, p') => Some ({| Statements := stmts |}, p')
  | None => None
  end.
Proof.
  unfold ParseProgram. unfold_M.
  destruct (ParseProgram_loop fuel [] p) as [[stmts p']|]; reflexivity.
Qed.

Lemma parseLetStatment_mono (fuel fuel' : nat) (p : Parser)
      (r : option LetStatement * Parser) :
  fuel <= fuel' ->
  parseLetStatment fuel p = Some r -> parseLetStatment fuel' p = Some r.
Proof.
  intros Hle. rewrite !parseLetStatment_eq.
  destruct (expectPeek IDENT p) as [[[|] p1]|]; auto.
  destruct (expectPeek ASSIGN p1) as [[[|] p2]|]; auto.
  destruct (skip_to_SEMICOLON fuel p2) as [r2|] eqn:E; [|discriminate].
  now rewrite (skip_to_SEMICOLON_mono _ Hle E).
Qed.

Lemma parseReturnStatment_mono (fuel fuel' : nat) (p : Parser)
      (r : option ReturnStatement * Parser) :
  fuel <= fuel' ->
  parseReturnStatment fuel p = Some r -> parseReturnStatment fuel' p = Some r.
Proof.
  intros Hle. rewrite !parseReturnStatment_eq.
  destruct (skip_to_SEMICOLON fuel (advance p)) as [r2|] eqn:E;
    [|discriminate].
  now rewrite (skip_to_SEMICOLON_mono _ Hle E).
Qed.

Lemma parseStatement_mono (fuel fuel' : nat) (p : Parser)
      (r : option Statement * Parser) :
  fuel <= fuel' ->
  parseStatement fuel p = Some r -> parseStatement fuel' p = Some r.
Proof.
  intros Hle. rewrite !parseStatement_eq.
  destruct (Type_ (curToken p)); auto.
  - destruct (parseLetStatment fuel p) as [r1|] eqn:E; [|discriminate].
    eapply parseLetStatment_mono in E; [|exact Hle]. now rewrite E.
  - destruct (parseReturnStatment fuel p) as [r1|] eqn:E; [|discriminate].
    eapply parseReturnStatment_mono in E; [|exact Hle]. now rewrite E.
Qed.

Lemma ParseProgram_loop_mono (fuel : nat) :
  forall (fuel' : nat) (stmts : list Statement) (p : Parser)
         (r : list Statement * Parser),
    fuel <= fuel' ->
    ParseProgram_loop fuel stmts p = Some r ->
    ParseProgram_loop fuel' stmts p = Some r.
Proof.
  induction fuel as [|fuel IH]; intros fuel' stmts p r Hle Hrun;
    [discriminate|].
  destruct fuel' as [|fuel']; [lia|].
  rewrite ParseProgram_loop_step in *.
  destruct (TokenType_eqb (Type_ (curToken p)) EOF); auto.
  assert (Hle' : fuel <= fuel') by lia.
  destruct (parseStatement fuel p) as [r1|] eqn:E; [|discriminate].
  eapply parseStatement_mono in E; [|exact Hle']. rewrite E.
  destruct r1 as [[s|] p']; apply IH; auto.
Qed.

Lemma ParseProgram_mono (fuel fuel' : nat) (p : Parser)
      (r : Program * Parser) :
  fuel <= fuel' ->
  ParseProgram fuel p = Some r -> ParseProgram fuel' p = Some r.
Proof.
  intros Hle. rewrite !ParseProgram_eq.
  destruct (ParseProgram_loop fuel [] p) as [r1|] eqn:E; [|discriminate].
  now rewrite (ParseProgram_loop_mono _ _ Hle E).
Qed.

(** ** [expectPeek] *)

(** C6.  [expectPeek t] on a parser whose peek token is not of kind [t]
    returns false, appends the one diagnostic
    expected next token to be <t>, got <kind of the peek token> instead
    to the diagnostics and leaves the current token, the peek token and the
    lexer as they were; on a parser whose peek token is of kind [t] it
    returns true, moves on by one token and leaves the diagnostics as they
    were. *)
Theorem expectPeek_spec (t : TokenType) (p : Parser) :
  (Type_ (peekToken p) <> t ->
   exists p',
     expectPeek t p = Some (false, p')
     /\ errors p' =
        errors p ++
        [("expected next token to be " ++ String_ t ++ ", got "
          ++ String_ (Type_ (peekToken p)) ++ " instead")%string]
     /\ curToken p' = curToken p
     /\ peekToken p' = peekToken p
     /\ l p' = l p)
  /\
  (Type_ (peekToken p) = t ->
   exists p',
     expectPeek t p = Some (true, p')
     /\ errors p' = errors p
     /\ curToken p' = peekToken p
     /\ (peekToken p', l p') = NextToken (l p)).
Proof.
  rewrite expectPeek_eq. split; intros Hpeek.
  - apply TokenType_eqb_neq in Hpeek. rewrite Hpeek.
    eexists. split; [reflexivity|]. now repeat split.
  - apply TokenType_eqb_eq in Hpeek. rewrite Hpeek.
    eexists. split; [reflexivity|].
    unfold advance. destruct (NextToken (l p)) as [tok lx]. now repeat split.
Qed.

(** ** [parseLetStatment] and [parseReturnStatment] *)

(** C4, as the code has it.  On the tokens LET, IDENT, ASSIGN, any tokens
    but a semicolon, SEMICOLON, [parseLetStatment] returns a node with the
    LET token and the identifier as its name, and with no value: the tokens
    between the assignment sign and the semicolon are skipped.  It appends
    no diagnostic and stops with the semicolon as the current token. *)
Theorem parseLetStatment_sets_Name_only
        (fuel : nat) (p : Parser) (ident assign semi : Token)
        (es rest : list Token) :
  peekToken p = ident ->
  l p = assign :: es ++ semi :: rest ->
  Type_ ident = IDENT ->
  Type_ assign = ASSIGN ->
  Forall (fun t => Type_ t <> SEMICOLON) es ->
  Type_ semi = SEMICOLON ->
  List.length es + 1 < fuel ->
  exists stmt p',
    parseLetStatment fuel p = Some (Some stmt, p')
    /\ LetStatement_Token stmt = curToken p
    /\ LetStatement_Name stmt =
       Some {| Identifier_Token := ident; Identifier_Value := Literal ident |}
    /\ LetStatement_Value stmt = None
    /\ errors p' = errors p
    /\ curToken p' = semi.
Proof.
  intros Hpeek Hl Hident Hassign Hes Hsemi Hfuel.
  rewrite parseLetStatment_eq, expectPeek_eq, Hpeek, Hident.
  rewrite TokenType_eqb_refl.
  rewrite advance_eta, Hpeek, Hl.
  rewrite expectPeek_eq. simpl peekToken. rewrite Hassign, TokenType_eqb_refl.
  rewrite advance_parser_at.
  change (assign :: es ++ semi :: rest) with ((assign :: es) ++ semi :: rest).
  rewrite skip_to_SEMICOLON_finds; auto.
  - do 2 eexists. split; [reflexivity|]. now repeat split.
  - constructor; auto. unfold not_SEMICOLON. rewrite Hassign. discriminate.
  - simpl. lia.
Qed.

(** C5, as the code has it.  On the tokens RETURN, any tokens but a
    semicolon, SEMICOLON, [parseReturnStatment] returns a node with the
    RETURN token and with no return value: the tokens up to the semicolon
    are skipped.  It appends no diagnostic and stops with the semicolon as
    the current token. *)
Theorem parseReturnStatment_sets_Token_only
        (fuel : nat) (p : Parser) (semi : Token) (es rest : list Token) :
  peekToken p :: l p = es ++ semi :: rest ->
  Forall (fun t => Type_ t <> SEMICOLON) es ->
  Type_ semi = SEMICOLON ->
  List.length es < fuel ->
  exists stmt p',
    parseReturnStatment fuel p = Some (Some stmt, p')
    /\ ReturnStatement_Token stmt = curToken p
    /\ ReturnStatement_ReturnValue stmt = None
    /\ errors p' = errors p
    /\ curToken p' = semi.
Proof.
  intros Hstream Hes Hsemi Hfuel.
  rewrite parseReturnStatment_eq.
  rewrite advance_eta, Hstream.
  rewrite skip_to_SEMICOLON_finds; auto.
  do 2 eexists. split; [reflexivity|]. now repeat split.
Qed.

(** ** [parseStatement] and [ParseProgram] *)



Lemma parseStatement_other (fuel : nat) (p : Parser) :
  Type_ (curToken p) <> LET -> Type_ (curToken p) <> RETURN ->
  parseStatement fuel p = Some (None, p).
Proof.
  intros Hlet Hret. rewrite parseStatement_eq.
  destruct (Type_ (curToken p)); congruence.
Qed.


(** The fuel does not show in a result: two runs of [ParseProgram] over
    the same tokens that return, each with its own fuel, return the same
    Program and leave the same diagnostics. *)
Lemma ParseProgram_fuel_independent
        (lx : Lexer) (fuel1 fuel2 : nat)
        (program1 program2 : Program) (p1 p2 : Parser) :
  ParseProgram fuel1 (New lx) = Some (program1, p1) ->
  ParseProgram fuel2 (New lx) = Some (program2, p2) ->
  program1 = program2 /\ errors p1 = errors p2.
Proof.
  intros H1 H2.
  apply (ParseProgram_mono (fuel' := Nat.max fuel1 fuel2)) in H1;
    [|apply Nat.le_max_l].
  apply (ParseProgram_mono (fuel' := Nat.max fuel1 fuel2)) in H2;
    [|apply Nat.le_max_r].
  rewrite H1 in H2. injection H2 as -> ->. now split.
Qed.

(** C1, which the code fails.  On the tokens of [let x = 5] and of
    [return 5], with no semicolon before the end of the input,
    [parseLetStatment], [parseReturnStatment] and [ParseProgram] do not
    return, whatever the fuel: the loop that skips to the semicolon keeps
    reading the end-of-input token. *)
Theorem ParseProgram_hangs_without_SEMICOLON (fuel : nat) :
  parseLetStatment fuel (New let_x_5_open) = None
  /\ parseReturnStatment fuel (New return_5_open) = None
  /\ ParseProgram fuel (New let_x_5_open) = None
  /\ ParseProgram fuel (New return_5_open) = None.
Proof.
  assert (Hlet : forall n, parseLetStatment n (New let_x_5_open) = None).
  { intros n. rewrite New_parser_at, parseLetStatment_eq, !expectPeek_eq.
    simpl. rewrite !advance_eta. simpl.
    rewrite (@skip_to_SEMICOLON_diverges n [] [tok ASSIGN "="; tok INT "5"]);
      auto.
    repeat constructor; discriminate. }
  assert (Hret : forall n, parseReturnStatment n (New return_5_open) = None).
  { intros n. rewrite New_parser_at, parseReturnStatment_eq, advance_eta.
    simpl.
    rewrite (@skip_to_SEMICOLON_diverges n [] [tok INT "5"]); auto.
    repeat constructor; discriminate. }
  repeat split; auto.
  - destruct fuel as [|fuel]; [reflexivity|].
    rewrite ParseProgram_eq, ParseProgram_loop_step, parseStatement_eq.
    specialize (Hlet fuel). rewrite New_parser_at in *. simpl.
    simpl in Hlet. now rewrite Hlet.
  - destruct fuel as [|fuel]; [reflexivity|].
    rewrite ParseProgram_eq, ParseProgram_loop_step, parseStatement_eq.
    specialize (Hret fuel). rewrite New_parser_at in *. simpl.
    simpl in Hret. now rewrite Hret.
Qed.

(** C7.  On the tokens of the malformed [let x 5;], [ParseProgram]
    returns; it leaves the one diagnostic of the missing assignment sign;
    and the Program holds no node for the statement: its only entry is the
    nil [*ast.LetStatement] that [parseLetStatment] returned. *)
Theorem ParseProgram_let_without_ASSIGN (fuel : nat) :
  exists p',
    ParseProgram (4 + fuel) (New let_x_no_assign)
    = Some ({| Statements := [LetStmt None] |}, p')
    /\ errors p' =
       [("expected next token to be " ++ String_ ASSIGN ++ ", got "
         ++ String_ INT ++ " instead")%string]
    /\ 1 <= List.length (errors p').
Proof.
  eexists. split; [reflexivity|]. split; [reflexivity|]. simpl. lia.
Qed.

(** C3, as the code has it.  On the tokens of [1 + 2 * 3;] and on those of
    [(1 + 2) * 3;], [ParseProgram] returns a Program with no statement and
    leaves no diagnostic: no expression is parsed, and the two Programs
    are the same. *)
Theorem ParseProgram_drops_infix_expressions (fuel : nat) :
  exists p1 p2,
    ParseProgram (7 + fuel) (New sum_product)
    = Some ({| Statements := [] |}, p1)
    /\ ParseProgram (9 + fuel) (New grouped_product)
       = Some ({| Statements := [] |}, p2)
    /\ errors p1 = [] /\ errors p2 = [].
Proof.
  do 2 eexists. split; [reflexivity|]. split; [reflexivity|]. now split.
Qed.

(** ** When [ParseProgram] returns *)

Lemma expectPeek_parser_at (t : TokenType) (errs : list string)
      (c : Token) (ts : list Token) :
  expectPeek t (parser_at errs (c :: ts)) =
  if TokenType_eqb (Type_ (hd EOF_Token ts)) t
  then Some (true, parser_at errs ts)
  else Some (false,
             parser_at (errs ++ [peek_message t (Type_ (hd EOF_Token ts))])
               (c :: ts)).
Proof. rewrite expectPeek_eq, advance_parser_at. reflexivity. Qed.

Lemma hd_kind_not_EOF (ts : list Token) (t : TokenType) :
  Type_ (hd EOF_Token ts) = t -> t <> EOF ->
  exists c ts', ts = c :: ts'.
Proof.
  destruct ts as [|c ts']; simpl; intros H Ht; [congruence|eauto].
Qed.

(** Over tokens that end in a semicolon a statement is parsed with fuel for
    the tokens, and what is left before the parser still ends in a
    semicolon. *)
Lemma parseStatement_returns (fuel : nat) (errs : list string)
      (t : Token) (ts : list Token) :
  ends_in_SEMICOLON (t :: ts) ->
  List.length ts < fuel ->
  exists stmt errs' c ts',
    parseStatement fuel (parser_at errs (t :: ts))
    = Some (stmt, parser_at errs' (c :: ts'))
    /\ ends_in_SEMICOLON ts'
    /\ List.length ts' <= List.length ts.
Proof.
  intros Hends Hfuel.
  pose proof (ends_in_SEMICOLON_tail _ _ Hends) as Hends'.
  destruct (TokenType_eq_dec (Type_ t) LET) as [Hlet|Hlet];
    [|destruct (TokenType_eq_dec (Type_ t) RETURN) as [Hret|Hret]].
  - (* a let statement *)
    rewrite parseStatement_eq. simpl curToken. rewrite Hlet.
    rewrite parseLetStatment_eq, expectPeek_parser_at.
    destruct (TokenType_eqb (Type_ (hd EOF_Token ts)) IDENT) eqn:Hident.
    + apply TokenType_eqb_eq in Hident.
      destruct (hd_kind_not_EOF ts Hident) as (id & ts1 & ->);
        [discriminate|].
      pose proof (ends_in_SEMICOLON_tail _ _ Hends') as Hends1.
      rewrite expectPeek_parser_at.
      destruct (TokenType_eqb (Type_ (hd EOF_Token ts1)) ASSIGN) eqn:Hassign.
      * apply TokenType_eqb_eq in Hassign.
        destruct (hd_kind_not_EOF ts1 Hassign) as (asg & ts2 & ->);
          [discriminate|].
        destruct (@ends_in_SEMICOLON_split (asg :: ts2))
          as (es & semi & rest & Hts & Hes & Hsemi & Hrest);
          [discriminate|exact Hends1|].
        assert (Hlen : List.length (asg :: ts2)
                       = List.length es + S (List.length rest))
          by (rewrite Hts, length_app; reflexivity).
        rewrite Hts, skip_to_SEMICOLON_finds; auto;
          [|simpl in Hfuel, Hlen; lia].
        do 4 eexists. split; [reflexivity|]. split; [exact Hrest|].
        rewrite <- Hts. simpl in *. lia.
      * do 4 eexists. split; [reflexivity|]. split; [exact Hends1|].
        simpl. lia.
    + do 4 eexists. split; [reflexivity|]. split; [exact Hends'|]. lia.
  - (* a return statement *)
    rewrite parseStatement_eq. simpl curToken. rewrite Hret.
    rewrite parseReturnStatment_eq, advance_parser_at.
    destruct ts as [|t1 ts1]; [simpl in Hends; congruence|].
    destruct (@ends_in_SEMICOLON_split (t1 :: ts1))
      as (es & semi & rest & Hts & Hes & Hsemi & Hrest);
      [discriminate|exact Hends'|].
    assert (Hlen : List.length (t1 :: ts1)
                   = List.length es + S (List.length rest))
      by (rewrite Hts, length_app; reflexivity).
    rewrite Hts, skip_to_SEMICOLON_finds; auto; [|lia].
    do 4 eexists. split; [reflexivity|]. split; [exact Hrest|].
    rewrite <- Hts. lia.
  - (* any other statement *)
    rewrite parseStatement_other by assumption.
    do 4 eexists. split; [reflexivity|]. split; [exact Hends'|]. lia.
Qed.

Lemma ParseProgram_loop_returns (n : nat) :
  forall (ts : list Token) (fuel : nat) (errs : list string)
         (stmts : list Statement),
    List.length ts <= n ->
    ends_in_SEMICOLON ts ->
    n < fuel ->
    exists stmts' p',
      ParseProgram_loop fuel stmts (parser_at errs ts) = Some (stmts', p').
Proof.
  induction n as [|n IH]; intros ts fuel errs stmts Hlen Hends Hfuel;
    (destruct fuel as [|fuel]; [lia|]); rewrite ParseProgram_loop_step.
  - destruct ts; [|simpl in Hlen; lia]. simpl. eauto.
  - destruct ts as [|t ts]; [simpl; eauto|].
    simpl curToken.
    destruct (TokenType_eqb (Type_ t) EOF); [eauto|].
    simpl in Hlen.
    destruct (@parseStatement_returns fuel errs t ts)
      as (stmt & errs' & c & ts' & Hrun & Hends' & Hlen');
      [exact Hends|lia|].
    rewrite Hrun, advance_parser_at.
    destruct stmt as [s|]; apply IH; auto; lia.
Qed.

(** X1.  [ParseProgram] returns on every token stream that is empty or
    whose last token is a semicolon, with fuel for its tokens. *)
Theorem ParseProgram_returns_after_SEMICOLON (lx : Lexer) (fuel : nat) :
  ends_in_SEMICOLON lx ->
  List.length lx < fuel ->
  exists program p', ParseProgram fuel (New lx) = Some (program, p').
Proof.
  intros Hends Hfuel. rewrite ParseProgram_eq, New_parser_at.
  destruct (@ParseProgram_loop_returns (List.length lx) lx fuel [] [])
    as (stmts & p' & Hrun); auto.
  rewrite Hrun. eauto.
Qed.

Lemma ParseProgram_loop_without_statements (ts : list Token) :
  forall (fuel : nat) (errs : list string) (stmts : list Statement),
    Forall (fun t => Type_ t <> LET /\ Type_ t <> RETURN) ts ->
    List.length ts < fuel ->
    exists p',
      ParseProgram_loop fuel stmts (parser_at errs ts) = Some (stmts, p')
      /\ errors p' = errs.
Proof.
  induction ts as [|t ts IH]; intros fuel errs stmts Hts Hfuel;
    (destruct fuel as [|fuel]; [simpl in Hfuel; lia|]);
    rewrite ParseProgram_loop_step; [simpl; eauto|].
  simpl curToken. destruct (TokenType_eqb (Type_ t) EOF); [eauto|].
  inversion Hts as [|? ? [Hlet Hret] Hts']; subst.
  rewrite parseStatement_other, advance_parser_at by assumption.
  apply IH; auto. simpl in Hfuel. lia.
Qed.

(** X2.  On a token stream with no LET and no RETURN token [ParseProgram]
    returns the Program with no statements and leaves no diagnostic. *)
Theorem ParseProgram_without_statements (lx : Lexer) (fuel : nat) :
  Forall (fun t => Type_ t <> LET /\ Type_ t <> RETURN) lx ->
  List.length lx < fuel ->
  exists p',
    ParseProgram fuel (New lx) = Some ({| Statements := [] |}, p')
    /\ errors p' = [].
Proof.
  intros Hlx Hfuel. rewrite ParseProgram_eq, New_parser_at.
  destruct (@ParseProgram_loop_without_statements lx fuel [] [] Hlx Hfuel)
    as (p' & Hrun & Herrs).
  rewrite Hrun. eauto.
Qed.

End Parsing.

(** ** The interactive shell *)

Lemma Eval_calls_app (events events' : list Event) :
  Eval_calls (events ++ events') = Eval_calls events ++ Eval_calls events'.
Proof.
  induction events as [|[s|s|program] events IH]; simpl; congruence.
Qed.

Lemma printParserErrors_no_Eval (errs : list string) :
  Eval_calls (printParserErrors errs) = [].
Proof.
  unfold printParserErrors. rewrite Eval_calls_app. simpl.
  induction errs as [|msg errs IH]; simpl; auto.
Qed.

Section Shell.
Context {decls : Decls}.
Variable lexer_New : string -> Lexer.
Variable Object : Type.
Variable Eval : Program -> option Object.
Variable Inspect : Object -> string.
Variable Program_String : Program -> string.

#[local] Abbreviation Start_line :=
  (Start_line lexer_New Eval Inspect Program_String).
#[local] Abbreviation Start :=
  (Start lexer_New Eval Inspect Program_String).


(** C2, as the code has it.  The shell keeps no Environment and hands none
    to the evaluator: a call of the evaluator has one argument, a Program.
    Over a session the Programs that the shell hands to the evaluator are
    the Programs of the lines that are parsed without a diagnostic, each
    parsed from its line alone, in the order of the lines and up to the
    first line on which the parser does not return.  They depend on no
    earlier line and on nothing that the evaluator has returned. *)
Theorem Start_hands_over_line_Programs (fuel : nat) (input : list string) :
  Eval_calls (fst (Start fuel input)) = line_Programs lexer_New fuel input.
Proof.
  induction input as [|line rest IH]; simpl; [reflexivity|].
  unfold repl.Start_line.
  destruct (ParseProgram fuel (New (lexer_New line))) as [[program p]|];
    [|reflexivity].
  destruct (Start fuel rest) as [events' returns]. simpl in IH.
  destruct (negb (List.length (errors p) =? 0)).
  - cbn [fst Eval_calls].
    now rewrite Eval_calls_app, printParserErrors_no_Eval, IH.
  - cbn [fst]. rewrite app_nil_r.
    change (Eval_calls (Print PROMPT :: ?x)) with (Eval_calls x).
    rewrite !Eval_calls_app, IH. now destruct (Eval program).
Qed.

(** X3.  Every Program that the shell hands to the evaluator is the
    Program of one line of the input, parsed on its own and without a
    diagnostic. *)
Theorem Start_Eval_calls
        (fuel : nat) (input : list string) (program : Program) :
  In program (Eval_calls (fst (Start fuel input))) ->
  exists line p',
    In line input
    /\ ParseProgram fuel (New (lexer_New line)) = Some (program, p')
    /\ errors p' = [].
Proof.
  induction input as [|line rest IH]; simpl; [tauto|].
  destruct (Start_line fuel line) as [events|] eqn:E; simpl; [|tauto].
  destruct (Start fuel rest) as [events' returns]. simpl in *.
  rewrite Eval_calls_app, in_app_iff. intros [Hin|Hin].
  - unfold repl.Start_line in E.
    destruct (ParseProgram fuel (New (lexer_New line))) as [[prog p']|] eqn:HP;
      [|discriminate].
    destruct (errors p') as [|msg errs] eqn:HE; simpl in E.
    + injection E as <-. simpl in Hin. destruct Hin as [<-|Hin].
      * exists line, p'. auto.
      * destruct (Eval prog); simpl in Hin; tauto.
    + injection E as <-.
      rewrite (printParserErrors_no_Eval (msg :: errs)) in Hin.
      destruct Hin.
  - destruct (IH Hin) as (line' & p' & Hl & HP & HE).
    exists line', p'. auto.
Qed.

End Shell.

(** ** The properties on the sample inputs *)

(** The two cases of [expectPeek_spec] on the parser over [let x 5;], whose
    peek token is the identifier: the kind IDENT is met, the kind ASSIGN is
    not. *)
Lemma expectPeek_spec_witness :
  (Type_ (peekToken (New let_x_no_assign)) <> ASSIGN
   /\ exists p',
        expectPeek ASSIGN (New let_x_no_assign) = Some (false, p')
        /\ errors p'
           = ["expected next token to be ASSIGN, got IDENT instead"%string]
        /\ curToken p' = tok LET "let"
        /\ peekToken p' = tok IDENT "x"
        /\ l p' = [tok INT "5"; tok SEMICOLON ";"])
  /\
  (Type_ (peekToken (New let_x_no_assign)) = IDENT
   /\ exists p',
        expectPeek IDENT (New let_x_no_assign) = Some (true, p')
        /\ errors p' = []
        /\ curToken p' = tok IDENT "x"
        /\ (peekToken p', l p') = (tok INT "5", [tok SEMICOLON ";"])).
Proof.
  split.
  - assert (H : Type_ (peekToken (New let_x_no_assign)) <> ASSIGN)
      by discriminate.
    split; [exact H|].
    exact (proj1 (expectPeek_spec ASSIGN (New let_x_no_assign)) H).
  - split; [reflexivity|].
    exact (proj2 (expectPeek_spec IDENT (New let_x_no_assign)) eq_refl).
Defined.

(** C4 at [let x = 5;]: the node that [parseLetStatment] returns has the
    identifier [x] as its name and no value, though the tokens between the
    assignment sign and the semicolon are the expression [5]; no
    diagnostic is left. *)
Lemma parseLetStatment_leaves_Value_nil :
  exists stmt p',
    parseLetStatment 3 (New let_x_5) = Some (Some stmt, p')
    /\ errors p' = []
    /\ LetStatement_Name stmt
       = Some {| Identifier_Token := tok IDENT "x"; Identifier_Value := "x" |}
    /\ LetStatement_Value stmt = None.
Proof. do 2 eexists. split; [cbv; reflexivity|]. now repeat split. Qed.

(** [parseLetStatment_sets_Name_only] on the parser over [let x = 5;]. *)
Lemma parseLetStatment_sets_Name_only_witness :
  (peekToken (New let_x_5) = tok IDENT "x"
   /\ l (New let_x_5)
      = tok ASSIGN "=" :: [tok INT "5"] ++ tok SEMICOLON ";" :: []
   /\ Forall (fun t => Type_ t <> SEMICOLON) [tok INT "5"]
   /\ List.length [tok INT "5"] + 1 < 3)
  /\
  exists stmt p',
    parseLetStatment 3 (New let_x_5) = Some (Some stmt, p')
    /\ LetStatement_Token stmt = tok LET "let"
    /\ LetStatement_Name stmt
       = Some {| Identifier_Token := tok IDENT "x"; Identifier_Value := "x" |}
    /\ LetStatement_Value stmt = None
    /\ errors p' = []
    /\ curToken p' = tok SEMICOLON ";".
Proof.
  assert (Hes : Forall (fun t => Type_ t <> SEMICOLON) [tok INT "5"])
    by (repeat constructor; discriminate).
  assert (Hfuel : List.length [tok INT "5"] + 1 < 3) by (simpl; lia).
  split; [now repeat split|].
  exact (@parseLetStatment_sets_Name_only sample_Decls 3 (New let_x_5)
           (tok IDENT "x") (tok ASSIGN "=") (tok SEMICOLON ";")
           [tok INT "5"] [] eq_refl eq_refl eq_refl eq_refl Hes eq_refl Hfuel).
Defined.

(** C5 at [return 5;]: the node that [parseReturnStatment] returns has no
    return value, though the tokens up to the semicolon are the expression
    [5]. *)
Lemma parseReturnStatment_leaves_ReturnValue_nil :
  exists stmt p',
    parseReturnStatment 2 (New return_5) = Some (Some stmt, p')
    /\ errors p' = []
    /\ ReturnStatement_ReturnValue stmt = None.
Proof. do 2 eexists. split; [cbv; reflexivity|]. now split. Qed.

(** [parseReturnStatment_sets_Token_only] on the parser over [return 5;]. *)
Lemma parseReturnStatment_sets_Token_only_witness :
  (peekToken (New return_5) :: l (New return_5)
   = [tok INT "5"] ++ tok SEMICOLON ";" :: []
   /\ Forall (fun t => Type_ t <> SEMICOLON) [tok INT "5"]
   /\ List.length [tok INT "5"] < 2)
  /\
  exists stmt p',
    parseReturnStatment 2 (New return_5) = Some (Some stmt, p')
    /\ ReturnStatement_Token stmt = tok RETURN "return"
    /\ ReturnStatement_ReturnValue stmt = None
    /\ errors p' = []
    /\ curToken p' = tok SEMICOLON ";".
Proof.
  assert (Hes : Forall (fun t => Type_ t <> SEMICOLON) [tok INT "5"])
    by (repeat constructor; discriminate).
  assert (Hfuel : List.length [tok INT "5"] < 2) by (simpl; lia).
  split; [now repeat split|].
  exact (@parseReturnStatment_sets_Token_only 2 (New return_5)
           (tok SEMICOLON ";") [tok INT "5"] [] eq_refl Hes eq_refl Hfuel).
Defined.

(** C3 at its two inputs: each Program has no statement at all, where the
    specification has a single infix expression, and the two Programs are
    equal, where the specification has them differ. *)
Lemma ParseProgram_sum_product_empty :
  ParseProgram 7 (New sum_product)
  = Some ({| Statements := [] |}, parser_at [] [])
  /\ ParseProgram 9 (New grouped_product)
     = Some ({| Statements := [] |}, parser_at [] []).
Proof. split; reflexivity. Qed.



(** C2 on the session [let x = 5;] then [x;], with an evaluator that has
    no result: the evaluator is called with the Program of the first line,
    a let statement with no value, and then with the Program of the second
    line, which is empty.  Each call has the Program of its line as its
    one argument; no Environment goes with it. *)
Lemma Start_forgets_let_binding :
  Eval_calls
    (fst (Start sample_lexer_New no_result show_count no_String 6
            ["let x = 5;"; "x;"]%string))
  = [ {| Statements :=
           [LetStmt (Some (Build_LetStatement (tok LET "let")
              (Some {| Identifier_Token := tok IDENT "x";
                       Identifier_Value := "x" |}) None))] |};
      {| Statements := [] |} ]
  /\ Start sample_lexer_New no_result show_count no_String 6
       ["let x = 5;"; "x;"]%string
     = ([ Print ">>";
          Eval_call
            {| Statements :=
                 [LetStmt (Some (Build_LetStatement (tok LET "let")
                    (Some {| Identifier_Token := tok IDENT "x";
                             Identifier_Value := "x" |}) None))] |};
          Print ">>";
          Eval_call {| Statements := [] |};
          Print ">>" ], true).
Proof. split; reflexivity. Qed.


(** [ParseProgram_returns_after_SEMICOLON] on the tokens of [let x = 5;]. *)
Lemma ParseProgram_returns_after_SEMICOLON_witness :
  (ends_in_SEMICOLON let_x_5 /\ List.length let_x_5 < 6)
  /\ exists program p', ParseProgram 6 (New let_x_5) = Some (program, p').
Proof.
  assert (Hends : ends_in_SEMICOLON let_x_5) by reflexivity.
  assert (Hfuel : List.length let_x_5 < 6) by (simpl; lia).
  split; [now split|].
  exact (@ParseProgram_returns_after_SEMICOLON sample_Decls let_x_5 6
           Hends Hfuel).
Defined.

(** [ParseProgram_without_statements] on the tokens of [1 + 2 * 3;]. *)
Lemma ParseProgram_without_statements_witness :
  (Forall (fun t => Type_ t <> LET /\ Type_ t <> RETURN) sum_product
   /\ List.length sum_product < 7)
  /\ exists p',
       ParseProgram 7 (New sum_product) = Some ({| Statements := [] |}, p')
       /\ errors p' = [].
Proof.
  assert (Hlx : Forall (fun t => Type_ t <> LET /\ Type_ t <> RETURN)
                  sum_product)
    by (repeat constructor; discriminate).
  assert (Hfuel : List.length sum_product < 7) by (simpl; lia).
  split; [now split|].
  exact (@ParseProgram_without_statements sample_Decls sum_product 7
           Hlx Hfuel).
Defined.

(** [Start_Eval_calls] on the session [let x = 5;] then [x;]: the empty
    Program that the evaluator receives is the Program of the line [x;]. *)
Lemma Start_Eval_calls_witness :
  In {| Statements := [] |}
     (Eval_calls
        (fst (Start sample_lexer_New no_result show_count no_String 6
                ["let x = 5;"; "x;"]%string)))
  /\ exists line p',
       In line ["let x = 5;"; "x;"]%string
       /\ ParseProgram 6 (New (sample_lexer_New line))
          = Some ({| Statements := [] |}, p')
       /\ errors p' = [].
Proof.
  assert (Hin : In {| Statements := [] |}
                  (Eval_calls
                     (fst (Start sample_lexer_New no_result show_count
                             no_String 6 ["let x = 5;"; "x;"]%string))))
    by (right; left; reflexivity).
  split; [exact Hin|].
  exact (@Start_Eval_calls sample_Decls sample_lexer_New nat no_result
           show_count no_String 6 ["let x = 5;"; "x;"]%string _ Hin).
Defined.

(* ------------------------------------------------------------------ *)
(** * Further properties of the parser *)

Lemma advance_parser_at_tl (errs : list string) (ts : list Token) :
  advance (parser_at errs ts) = parser_at errs (tl ts).
Proof. destruct ts; [reflexivity|apply advance_parser_at]. Qed.

Lemma set_errors_parser_at (errs errs' : list string) (ts : list Token) :
  set_errors (parser_at errs ts) errs' = parser_at errs' ts.
Proof. reflexivity. Qed.

Lemma set_errors_eta (p : Parser) (errs : list string) :
  set_errors p errs = parser_at errs (curToken p :: peekToken p :: l p).
Proof. reflexivity. Qed.

Lemma set_errors_same (p : Parser) : set_errors p (errors p) = p.
Proof. destruct p; reflexivity. Qed.

Lemma after_errors_nil {A : Type} (r : option (A * Parser)) :
  after_errors [] r = r.
Proof.
  destruct r as [[a q]|]; simpl; [|reflexivity].
  now rewrite set_errors_same.
Qed.

Lemma after_errors_app {A : Type} (e1 e2 : list string)
      (r : option (A * Parser)) :
  after_errors (e1 ++ e2) r = after_errors e1 (after_errors e2 r).
Proof.
  destruct r as [[a q]|]; simpl; [|reflexivity].
  unfold set_errors; simpl. now rewrite app_assoc.
Qed.

(** ** Methods that do not read the diagnostics *)

Lemma framed_any {A : Type} (m : M A) (p : Parser) :
  framed m ->
  m p = after_errors (errors p) (m (set_errors p [])).
Proof.
  intros Hm. rewrite (parser_at_eta p) at 1. rewrite Hm. reflexivity.
Qed.

Lemma framed_ret {A : Type} (a : A) : framed (ret a).
Proof.
  intros errs ts. unfold ret. simpl. now rewrite app_nil_r.
Qed.

Lemma framed_bind {A B : Type} (m : M A) (k : A -> M B) :
  framed m -> (forall a, framed (k a)) -> framed (bind m k).
Proof.
  intros Hm Hk errs ts. unfold bind. rewrite Hm.
  destruct (m (parser_at [] ts)) as [[a q]|]; simpl; [|reflexivity].
  rewrite set_errors_eta, (Hk a).
  replace (k a q)
    with (k a (parser_at (errors q) (curToken q :: peekToken q :: l q)))
    by (now rewrite <- parser_at_eta).
  rewrite (Hk a (errors q)). apply after_errors_app.
Qed.

Lemma framed_gets {A : Type} (f : Parser -> A) :
  (forall errs ts, f (parser_at errs ts) = f (parser_at [] ts)) ->
  framed (gets f).
Proof.
  intros Hf errs ts. unfold gets. simpl. rewrite (Hf errs ts).
  now rewrite app_nil_r.
Qed.

Lemma framed_nextToken : framed nextToken.
Proof.
  intros errs ts. unfold nextToken, modify. simpl.
  rewrite !advance_parser_at_tl. simpl. now rewrite app_nil_r.
Qed.

Lemma framed_out_of_fuel {A : Type} : framed (@out_of_fuel A).
Proof. intros errs ts. reflexivity. Qed.

Section Coverage.
Context {decls : Decls}.

Lemma framed_peekErrors (t : TokenType) : framed (peekErrors t).
Proof.
  apply framed_bind; [now apply framed_gets|].
  intros peek errs ts. reflexivity.
Qed.

Lemma framed_expectPeek (t : TokenType) : framed (expectPeek t).
Proof.
  apply framed_bind; [unfold peekTokenIs; now apply framed_gets|].
  intros [|]; apply framed_bind; intros;
    auto using framed_nextToken, framed_peekErrors, framed_ret.
Qed.

Lemma framed_skip_to_SEMICOLON (fuel : nat) : framed (skip_to_SEMICOLON fuel).
Proof.
  induction fuel as [|fuel IH]; simpl; [apply framed_out_of_fuel|].
  apply framed_bind; [unfold curTokenIs; now apply framed_gets|].
  intros [|]; [apply framed_ret|].
  apply framed_bind; [apply framed_nextToken|intros; exact IH].
Qed.

Lemma framed_parseLetStatment (fuel : nat) : framed (parseLetStatment fuel).
Proof.
  apply framed_bind; [now apply framed_gets|]. intros cur.
  apply framed_bind; [apply framed_expectPeek|].
  intros [|]; simpl; [|apply framed_ret].
  apply framed_bind; [now apply framed_gets|]. intros cur'.
  apply framed_bind; [apply framed_expectPeek|].
  intros [|]; simpl; [|apply framed_ret].
  apply framed_bind; [apply framed_skip_to_SEMICOLON|].
  intros; apply framed_ret.
Qed.

Lemma framed_parseReturnStatment (fuel : nat) :
  framed (parseReturnStatment fuel).
Proof.
  apply framed_bind; [now apply framed_gets|]. intros cur.
  apply framed_bind; [apply framed_nextToken|]. intros _.
  apply framed_bind; [apply framed_skip_to_SEMICOLON|].
  intros; apply framed_ret.
Qed.

Lemma framed_parseStatement (fuel : nat) : framed (parseStatement fuel).
Proof.
  apply framed_bind; [now apply framed_gets|]. intros cur.
  destruct (Type_ cur); try apply framed_ret.
  - apply framed_bind; [apply framed_parseLetStatment|].
    intros; apply framed_ret.
  - apply framed_bind; [apply framed_parseReturnStatment|].
    intros; apply framed_ret.
Qed.

Lemma ParseProgram_loop_acc (fuel : nat) :
  forall (stmts : list Statement) (p : Parser),
    ParseProgram_loop fuel stmts p
    = match ParseProgram_loop fuel [] p with
      | Some (new, q) => Some (stmts ++ new, q)
      | None => None
      end.
Proof.
  induction fuel as [|fuel IH]; intros stmts p; [reflexivity|].
  rewrite !ParseProgram_loop_step.
  destruct (TokenType_eqb (Type_ (curToken p)) EOF);
    [now rewrite app_nil_r|].
  destruct (parseStatement fuel p) as [[[s|] q]|]; auto.
  rewrite (IH (stmts ++ [s])), (IH ([] ++ [s])).
  destruct (ParseProgram_loop fuel [] (advance q)) as [[new q']|]; auto.
  now rewrite <- app_assoc.
Qed.

Lemma framed_ParseProgram_loop (fuel : nat) :
  forall stmts : list Statement, framed (ParseProgram_loop fuel stmts).
Proof.
  induction fuel as [|fuel IH]; intros stmts; simpl;
    [apply framed_out_of_fuel|].
  apply framed_bind; [unfold curTokenIs; now apply framed_gets|].
  intros [|]; [apply framed_ret|].
  apply framed_bind; [apply framed_parseStatement|]. intros stmt.
  apply framed_bind; [apply framed_nextToken|]. intros _. apply IH.
Qed.

Lemma framed_ParseProgram (fuel : nat) : framed (ParseProgram fuel).
Proof.
  apply framed_bind; [apply framed_ParseProgram_loop|].
  intros; apply framed_ret.
Qed.

(** X4.  [ParseProgram] neither reads nor drops the diagnostics that the
    parser already has: it does what it does from the same tokens with no
    diagnostics, returns the same Program, and leaves the earlier
    diagnostics in front of the new ones. *)
Theorem ParseProgram_keeps_earlier_diagnostics (fuel : nat) (p : Parser) :
  ParseProgram fuel p
  = match ParseProgram fuel (set_errors p []) with
    | Some (program, q) =>
        Some (program, set_errors q (errors p ++ errors q))
    | None => None
    end.
Proof. exact (framed_any p (framed_ParseProgram fuel)). Qed.

(** ** What a statement leaves behind *)

Lemma skip_to_SEMICOLON_post (fuel : nat) :
  forall (p p' : Parser) (u : unit),
    skip_to_SEMICOLON fuel p = Some (u, p') ->
    errors p' = errors p /\ Type_ (curToken p') = SEMICOLON.
Proof.
  induction fuel as [|fuel IH]; intros p p' u Hrun; [discriminate|].
  rewrite skip_to_SEMICOLON_step in Hrun.
  destruct (TokenType_eqb (Type_ (curToken p)) SEMICOLON) eqn:E.
  - injection Hrun as _ <-. now apply TokenType_eqb_eq in E.
  - destruct (IH _ _ _ Hrun) as [He Hc]. now rewrite advance_errors in He.
Qed.

Lemma parseLetStatment_post (fuel : nat) (p p' : Parser)
      (r : option LetStatement) :
  parseLetStatment fuel p = Some (r, p') ->
  match r with
  | None => exists msg, errors p' = errors p ++ [msg]
  | Some node =>
      errors p' = errors p
      /\ Type_ (curToken p') = SEMICOLON
      /\ LetStatement_Token node = curToken p
      /\ (exists ident : Token,
            Type_ ident = IDENT
            /\ LetStatement_Name node
               = Some {| Identifier_Token := ident;
                         Identifier_Value := Literal ident |})
      /\ LetStatement_Value node = None
  end.
Proof.
  rewrite parseLetStatment_eq, expectPeek_eq.
  destruct (TokenType_eqb (Type_ (peekToken p)) IDENT) eqn:Hident.
  - rewrite expectPeek_eq.
    destruct (TokenType_eqb (Type_ (peekToken (advance p))) ASSIGN).
    + destruct (skip_to_SEMICOLON fuel (advance (advance p)))
        as [[u q]|] eqn:Hskip; [|discriminate].
      intros H; injection H as <- <-.
      destruct (skip_to_SEMICOLON_post _ _ Hskip) as [He Hc].
      rewrite !advance_errors in He.
      repeat split; auto.
      exists (peekToken p). apply TokenType_eqb_eq in Hident.
      rewrite advance_eta. split; auto.
    + intros H; injection H as <- <-. eexists. simpl.
      rewrite advance_errors. reflexivity.
  - intros H; injection H as <- <-. eexists. reflexivity.
Qed.

Lemma parseReturnStatment_post (fuel : nat) (p p' : Parser)
      (r : option ReturnStatement) :
  parseReturnStatment fuel p = Some (r, p') ->
  r = Some (Build_ReturnStatement (curToken p) None)
  /\ errors p' = errors p
  /\ Type_ (curToken p') = SEMICOLON.
Proof.
  rewrite parseReturnStatment_eq.
  destruct (skip_to_SEMICOLON fuel (advance p)) as [[u q]|] eqn:Hskip;
    [|discriminate].
  intros H; injection H as <- <-.
  destruct (skip_to_SEMICOLON_post _ _ Hskip) as [He Hc].
  rewrite advance_errors in He. auto.
Qed.

Lemma parseStatement_post (fuel : nat) (p p' : Parser)
      (r : option Statement) :
  parseStatement fuel p = Some (r, p') ->
  match r with
  | None => p' = p
  | Some s =>
      built_by_parser s
      /\ List.length (errors p')
         = List.length (errors p) + (if is_nil_let s then 1 else 0)
  end.
Proof.
  rewrite parseStatement_eq.
  destruct (Type_ (curToken p)) eqn:Hcur;
    try (intros H; injection H as <- <-; reflexivity).
  - destruct (parseLetStatment fuel p) as [[node q]|] eqn:Hlet;
      [|discriminate].
    intros H; injection H as <- <-.
    apply parseLetStatment_post in Hlet. destruct node as [node|]; simpl.
    + destruct Hlet as (He & _ & Htok & Hname & Hval).
      rewrite He, Htok, Hcur. repeat split; auto.
    + destruct Hlet as [msg ->]. split; [exact I|].
      rewrite length_app. reflexivity.
  - destruct (parseReturnStatment fuel p) as [[node q]|] eqn:Hret;
      [|discriminate].
    intros H; injection H as <- <-.
    apply parseReturnStatment_post in Hret.
    destruct Hret as (-> & He & _). simpl. rewrite He.
    repeat split; auto.
Qed.

Lemma ParseProgram_loop_post (fuel : nat) :
  forall (stmts stmts' : list Statement) (p p' : Parser),
    ParseProgram_loop fuel stmts p = Some (stmts', p') ->
    Forall built_by_parser stmts ->
    Forall built_by_parser stmts'
    /\ List.length (errors p') + List.length (filter is_nil_let stmts)
       = List.length (errors p) + List.length (filter is_nil_let stmts')
    /\ Type_ (curToken p') = EOF.
Proof.
  induction fuel as [|fuel IH]; intros stmts stmts' p p' Hrun Hbuilt;
    [discriminate|].
  rewrite ParseProgram_loop_step in Hrun.
  destruct (TokenType_eqb (Type_ (curToken p)) EOF) eqn:Heof.
  - injection Hrun as <- <-. apply TokenType_eqb_eq in Heof. auto.
  - destruct (parseStatement fuel p) as [[r q]|] eqn:Hstmt; [|discriminate].
    apply parseStatement_post in Hstmt. destruct r as [s|].
    + destruct Hstmt as [Hs Hlen].
      destruct (IH _ _ _ _ Hrun) as (Hb & Hcount & Hc).
      { apply Forall_app. split; auto. }
      split; [exact Hb|]. split; [|exact Hc].
      rewrite advance_errors, filter_app, length_app in Hcount.
      simpl in Hcount. destruct (is_nil_let s); simpl in Hcount; lia.
    + subst q. destruct (IH _ _ _ _ Hrun Hbuilt) as (Hb & Hcount & Hc).
      rewrite advance_errors in Hcount. auto.
Qed.

(** X5.  When [ParseProgram] returns, every statement of its Program is a
    let or a return statement as the parser writes them: a let node has a
    LET token, an identifier as its name and no value, a return node has a
    RETURN token and no return value, and an entry without a node is a nil
    let statement. *)
Theorem ParseProgram_builds_bare_nodes
        (fuel : nat) (p p' : Parser) (program : Program) :
  ParseProgram fuel p = Some (program, p') ->
  Forall built_by_parser (Statements program).
Proof.
  rewrite ParseProgram_eq.
  destruct (ParseProgram_loop fuel [] p) as [[stmts q]|] eqn:Hloop;
    [|discriminate].
  intros H; injection H as <- <-. simpl.
  eapply ParseProgram_loop_post in Hloop; [|constructor]. tauto.
Qed.

(** X6.  When [ParseProgram] returns, it has appended as many diagnostics
    as its Program has nil let statements: one diagnostic for each let
    statement that it gave up, and none for anything else. *)
Theorem ParseProgram_one_diagnostic_per_nil_let
        (fuel : nat) (p p' : Parser) (program : Program) :
  ParseProgram fuel p = Some (program, p') ->
  List.length (errors p')
  = List.length (errors p)
    + List.length (filter is_nil_let (Statements program)).
Proof.
  rewrite ParseProgram_eq.
  destruct (ParseProgram_loop fuel [] p) as [[stmts q]|] eqn:Hloop;
    [|discriminate].
  intros H; injection H as <- <-. simpl.
  eapply ParseProgram_loop_post in Hloop; [|constructor].
  destruct Hloop as (_ & Hcount & _). simpl in Hcount. lia.
Qed.

(** X7.  When [ParseProgram] returns, the current token of the parser is
    of kind EOF. *)
Theorem ParseProgram_stops_at_EOF
        (fuel : nat) (p p' : Parser) (program : Program) :
  ParseProgram fuel p = Some (program, p') ->
  Type_ (curToken p') = EOF.
Proof.
  rewrite ParseProgram_eq.
  destruct (ParseProgram_loop fuel [] p) as [[stmts q]|] eqn:Hloop;
    [|discriminate].
  intros H; injection H as <- <-.
  eapply ParseProgram_loop_post in Hloop; [|constructor]. tauto.
Qed.

End Coverage.

(** ** When a statement is parsed to its end *)

Lemma first_SEMICOLON (ts : list Token) :
  Forall not_SEMICOLON ts
  \/ exists es semi rest,
       ts = es ++ semi :: rest
       /\ Forall not_SEMICOLON es
       /\ Type_ semi = SEMICOLON.
Proof.
  induction ts as [|t ts IH]; [left; constructor|].
  destruct (TokenType_eq_dec (Type_ t) SEMICOLON) as [Hsemi|Hsemi].
  - right. exists [], t, ts. repeat split; auto.
  - destruct IH as [Hall|(es & semi & rest & -> & Hes & Hs)].
    + left. constructor; auto.
    + right. exists (t :: es), semi, rest. repeat split; auto.
Qed.

Lemma skip_to_SEMICOLON_returns_iff (errs : list string) (ts : list Token) :
  (exists fuel r, skip_to_SEMICOLON fuel (parser_at errs ts) = Some r)
  <-> Exists (fun t => Type_ t = SEMICOLON) ts.
Proof.
  split.
  - intros (fuel & r & Hrun).
    destruct (first_SEMICOLON ts) as [Hall|(es & semi & rest & -> & _ & Hs)].
    + rewrite skip_to_SEMICOLON_diverges in Hrun by assumption.
      discriminate.
    + apply Exists_app. right. now constructor.
  - intros Hex.
    destruct (first_SEMICOLON ts) as [Hall|(es & semi & rest & -> & Hes & Hs)].
    + apply Exists_exists in Hex. destruct Hex as (t & Hin & Ht).
      rewrite Forall_forall in Hall. now destruct (Hall t Hin).
    + exists (S (List.length es)). eexists.
      apply skip_to_SEMICOLON_finds; auto.
Qed.

Section Termination.
Context {decls : Decls}.

(** X8.  [parseReturnStatment] returns exactly when a token of kind
    SEMICOLON is the peek token or is still to come from the lexer;
    otherwise its loop never ends.  When it returns, it returns a node,
    never nil, with the token it started on and no return value; it adds
    no diagnostic and stops on a semicolon. *)
Theorem parseReturnStatment_returns_iff (p : Parser) :
  ((exists fuel r, parseReturnStatment fuel p = Some r)
   <-> Exists (fun t => Type_ t = SEMICOLON) (peekToken p :: l p))
  /\
  (forall fuel r p',
     parseReturnStatment fuel p = Some (r, p') ->
     r = Some (Build_ReturnStatement (curToken p) None)
     /\ errors p' = errors p
     /\ Type_ (curToken p') = SEMICOLON).
Proof.
  split; [|intros fuel r p'; apply parseReturnStatment_post].
  rewrite <- (skip_to_SEMICOLON_returns_iff (errors p)), <- advance_eta.
  split; intros (fuel & r & Hrun).
  - rewrite parseReturnStatment_eq in Hrun.
    destruct (skip_to_SEMICOLON fuel (advance p)) as [r'|] eqn:E;
      [|discriminate].
    eauto.
  - exists fuel. rewrite parseReturnStatment_eq, Hrun.
    destruct r as [u q]. eauto.
Qed.

(** X9.  [parseLetStatment] returns exactly when the peek token is not an
    identifier, or the token after it is not an assignment sign, or a
    token of kind SEMICOLON is still to come from the lexer; otherwise its
    loop never ends. *)
Theorem parseLetStatment_returns_iff (p : Parser) :
  (exists fuel r, parseLetStatment fuel p = Some r)
  <-> (Type_ (peekToken p) <> IDENT
       \/ Type_ (hd EOF_Token (l p)) <> ASSIGN
       \/ Exists (fun t => Type_ t = SEMICOLON) (l p)).
Proof.
  assert (Heq : forall fuel,
             parseLetStatment fuel p =
             if TokenType_eqb (Type_ (peekToken p)) IDENT then
               if TokenType_eqb (Type_ (hd EOF_Token (l p))) ASSIGN then
                 match skip_to_SEMICOLON fuel (parser_at (errors p) (l p))
                 with
                 | Some (_, q) =>
                     Some (Some (Build_LetStatement (curToken p)
                              (Some {| Identifier_Token := peekToken p;
                                       Identifier_Value :=
                                         Literal (peekToken p) |})
                              None), q)
                 | None => None
                 end
               else
                 Some (None,
                       parser_at
                         (errors p
                          ++ [peek_message ASSIGN
                                (Type_ (hd EOF_Token (l p)))])
                         (peekToken p :: l p))
             else
               Some (None,
                     set_errors p
                       (errors p
                        ++ [peek_message IDENT (Type_ (peekToken p))]))).
  { intros fuel. rewrite parseLetStatment_eq, expectPeek_eq.
    destruct (TokenType_eqb (Type_ (peekToken p)) IDENT); [|reflexivity].
    rewrite advance_eta, expectPeek_parser_at.
    destruct (TokenType_eqb (Type_ (hd EOF_Token (l p))) ASSIGN);
      reflexivity. }
  split.
  - intros (fuel & r & Hrun). rewrite Heq in Hrun.
    destruct (TokenType_eqb (Type_ (peekToken p)) IDENT) eqn:Hi;
      [|left; now apply TokenType_eqb_neq].
    destruct (TokenType_eqb (Type_ (hd EOF_Token (l p))) ASSIGN) eqn:Ha;
      [|right; left; now apply TokenType_eqb_neq].
    right; right. apply (skip_to_SEMICOLON_returns_iff (errors p)).
    destruct (skip_to_SEMICOLON fuel (parser_at (errors p) (l p)))
      as [r'|] eqn:E; [|discriminate].
    eauto.
  - intros H.
    destruct (TokenType_eqb (Type_ (peekToken p)) IDENT) eqn:Hi;
      [|exists 0; eexists; rewrite Heq; rewrite ?Hi; reflexivity].
    destruct (TokenType_eqb (Type_ (hd EOF_Token (l p))) ASSIGN) eqn:Ha;
      [|exists 0; eexists; rewrite Heq; rewrite ?Hi, ?Ha; reflexivity].
    destruct H as [H|[H|H]];
      [apply TokenType_eqb_eq in Hi; congruence
      |apply TokenType_eqb_eq in Ha; congruence|].
    apply (skip_to_SEMICOLON_returns_iff (errors p)) in H.
    destruct H as (fuel & [u q] & Hrun).
    exists fuel. eexists. rewrite Heq. rewrite ?Hi, ?Ha, Hrun. reflexivity.
Qed.

(** X10.  How [parseLetStatment] gives up.  When the peek token is not an
    identifier it returns nil, appends the diagnostic for IDENT and moves
    over no token.  When the peek token is an identifier and the token
    after it is not an assignment sign it returns nil, appends the
    diagnostic for ASSIGN and has moved over one token: the identifier is
    the current token.  Neither case needs fuel. *)
Theorem parseLetStatment_gives_up (fuel : nat) (p : Parser) :
  (Type_ (peekToken p) <> IDENT ->
   parseLetStatment fuel p
   = Some (None,
           set_errors p
             (errors p ++ [peek_message IDENT (Type_ (peekToken p))])))
  /\
  (Type_ (peekToken p) = IDENT ->
   Type_ (hd EOF_Token (l p)) <> ASSIGN ->
   exists p',
     parseLetStatment fuel p = Some (None, p')
     /\ errors p'
        = errors p ++ [peek_message ASSIGN (Type_ (hd EOF_Token (l p)))]
     /\ curToken p' = peekToken p
     /\ peekToken p' :: l p' = match l p with
                               | [] => [EOF_Token]
                               | _ :: _ => l p
                               end).
Proof.
  split.
  - intros Hi. apply TokenType_eqb_neq in Hi.
    now rewrite parseLetStatment_eq, expectPeek_eq, Hi.
  - intros Hi Ha. apply TokenType_eqb_eq in Hi. apply TokenType_eqb_neq in Ha.
    rewrite parseLetStatment_eq, expectPeek_eq, Hi.
    rewrite advance_eta, expectPeek_parser_at, Ha.
    eexists. split; [reflexivity|]. simpl.
    repeat split. now destruct (l p).
Qed.

End Termination.

(** ** [ParseProgram], one statement at a time *)

Section Statements.
Context {decls : Decls}.

Lemma LET_not_EOF (t : Token) :
  Type_ t = LET -> TokenType_eqb (Type_ t) EOF = false.
Proof. intros ->. now apply TokenType_eqb_neq. Qed.

Lemma RETURN_not_EOF (t : Token) :
  Type_ t = RETURN -> TokenType_eqb (Type_ t) EOF = false.
Proof. intros ->. now apply TokenType_eqb_neq. Qed.

Lemma ParseProgram_from_loop (fuel : nat) (s : Statement)
      (errs : list string) (ts : list Token) :
  match ParseProgram_loop fuel ([] ++ [s]) (parser_at errs ts) with
  | Some (stmts, q) => Some ({| Statements := stmts |}, q)
  | None => None
  end
  = match ParseProgram fuel (parser_at [] ts) with
    | Some (program, q) =>
        Some ({| Statements := s :: Statements program |},
              set_errors q (errs ++ errors q))
    | None => None
    end.
Proof.
  rewrite ParseProgram_loop_acc, (framed_ParseProgram_loop fuel [] errs ts).
  rewrite ParseProgram_eq.
  destruct (ParseProgram_loop fuel [] (parser_at [] ts)) as [[new q]|];
    reflexivity.
Qed.

Lemma parseLetStatment_parser_at (fuel : nat) (errs : list string)
      (let_tok ident assign semi : Token) (es rest : list Token) :
  Type_ ident = IDENT ->
  Type_ assign = ASSIGN ->
  Forall not_SEMICOLON es ->
  Type_ semi = SEMICOLON ->
  List.length es + 1 < fuel ->
  parseLetStatment fuel
    (parser_at errs (let_tok :: ident :: assign :: es ++ semi :: rest))
  = Some (Some (Build_LetStatement let_tok
                  (Some {| Identifier_Token := ident;
                           Identifier_Value := Literal ident |}) None),
          parser_at errs (semi :: rest)).
Proof.
  intros Hident Hassign Hes Hsemi Hfuel.
  rewrite parseLetStatment_eq, expectPeek_parser_at. simpl hd.
  rewrite Hident, TokenType_eqb_refl, expectPeek_parser_at. simpl hd.
  rewrite Hassign, TokenType_eqb_refl.
  change (assign :: es ++ semi :: rest) with ((assign :: es) ++ semi :: rest).
  rewrite skip_to_SEMICOLON_finds; auto.
  - constructor; auto. unfold not_SEMICOLON. rewrite Hassign. discriminate.
  - simpl. lia.
Qed.

(** X11.  A let statement with its identifier, its assignment sign and its
    semicolon at the head of the tokens comes first in the Program, as a
    node with that identifier and no value, and the tokens after its
    semicolon are parsed as they are parsed on their own: the same
    statements follow, the same diagnostics are left, and [ParseProgram]
    returns exactly when it returns on them. *)
Theorem ParseProgram_let_then_rest
        (fuel : nat) (let_tok ident assign semi : Token)
        (es rest : list Token) :
  Type_ let_tok = LET ->
  Type_ ident = IDENT ->
  Type_ assign = ASSIGN ->
  Forall (fun t => Type_ t <> SEMICOLON) es ->
  Type_ semi = SEMICOLON ->
  List.length es + 1 < fuel ->
  ParseProgram (S fuel)
    (New (let_tok :: ident :: assign :: es ++ semi :: rest))
  = match ParseProgram fuel (New rest) with
    | Some (program, q) =>
        Some ({| Statements :=
                   LetStmt (Some (Build_LetStatement let_tok
                     (Some {| Identifier_Token := ident;
                              Identifier_Value := Literal ident |}) None))
                   :: Statements program |}, q)
    | None => None
    end.
Proof.
  intros Hlet Hident Hassign Hes Hsemi Hfuel.
  rewrite ParseProgram_eq, !New_parser_at, ParseProgram_loop_step.
  simpl curToken. rewrite LET_not_EOF, parseStatement_eq by assumption.
  simpl curToken. rewrite Hlet, parseLetStatment_parser_at by assumption.
  rewrite advance_parser_at, ParseProgram_from_loop.
  destruct (ParseProgram fuel (parser_at [] rest)) as [[program q]|];
    [|reflexivity].
  simpl. now rewrite set_errors_same.
Qed.

(** X12.  A return statement with its semicolon at the head of the tokens
    comes first in the Program, as a node with no return value, and the
    tokens after its semicolon are parsed as they are parsed on their
    own. *)
Theorem ParseProgram_return_then_rest
        (fuel : nat) (return_tok semi : Token) (es rest : list Token) :
  Type_ return_tok = RETURN ->
  Forall (fun t => Type_ t <> SEMICOLON) es ->
  Type_ semi = SEMICOLON ->
  List.length es < fuel ->
  ParseProgram (S fuel) (New (return_tok :: es ++ semi :: rest))
  = match ParseProgram fuel (New rest) with
    | Some (program, q) =>
        Some ({| Statements :=
                   ReturnStmt (Some (Build_ReturnStatement return_tok None))
                   :: Statements program |}, q)
    | None => None
    end.
Proof.
  intros Hret Hes Hsemi Hfuel.
  rewrite ParseProgram_eq, !New_parser_at, ParseProgram_loop_step.
  simpl curToken. rewrite RETURN_not_EOF, parseStatement_eq by assumption.
  simpl curToken. rewrite Hret, parseReturnStatment_eq, advance_parser_at.
  rewrite skip_to_SEMICOLON_finds by assumption.
  rewrite advance_parser_at, ParseProgram_from_loop.
  destruct (ParseProgram fuel (parser_at [] rest)) as [[program q]|];
    [|reflexivity].
  simpl. now rewrite set_errors_same.
Qed.

(** X13.  How [ParseProgram] goes on after a let statement that it gives
    up.  With no identifier after LET, the Program starts with a nil let
    statement, the diagnostic for IDENT comes first, and parsing goes on
    with the token after LET as the start of a statement.  With an
    identifier and no assignment sign after it, the same holds with the
    diagnostic for ASSIGN and the token after the identifier: the
    identifier is passed over. *)
Theorem ParseProgram_after_bad_let
        (fuel : nat) (let_tok ident : Token) (rest : list Token) :
  Type_ let_tok = LET ->
  (Type_ (hd EOF_Token rest) <> IDENT ->
   ParseProgram (S fuel) (New (let_tok :: rest))
   = match ParseProgram fuel (New rest) with
     | Some (program, q) =>
         Some ({| Statements := LetStmt None :: Statements program |},
               set_errors q
                 (peek_message IDENT (Type_ (hd EOF_Token rest))
                  :: errors q))
     | None => None
     end)
  /\
  (Type_ ident = IDENT ->
   Type_ (hd EOF_Token rest) <> ASSIGN ->
   ParseProgram (S fuel) (New (let_tok :: ident :: rest))
   = match ParseProgram fuel (New rest) with
     | Some (program, q) =>
         Some ({| Statements := LetStmt None :: Statements program |},
               set_errors q
                 (peek_message ASSIGN (Type_ (hd EOF_Token rest))
                  :: errors q))
     | None => None
     end).
Proof.
  intros Hlet. split.
  - intros Hi. apply TokenType_eqb_neq in Hi.
    rewrite ParseProgram_eq, !New_parser_at, ParseProgram_loop_step.
    simpl curToken. rewrite LET_not_EOF, parseStatement_eq by assumption.
    simpl curToken. rewrite Hlet, parseLetStatment_eq, expectPeek_parser_at.
    rewrite Hi, advance_parser_at. apply ParseProgram_from_loop.
  - intros Hident Ha. apply TokenType_eqb_neq in Ha.
    rewrite ParseProgram_eq, !New_parser_at, ParseProgram_loop_step.
    simpl curToken. rewrite LET_not_EOF, parseStatement_eq by assumption.
    simpl curToken. rewrite Hlet, parseLetStatment_eq, expectPeek_parser_at.
    simpl hd. rewrite Hident, TokenType_eqb_refl, expectPeek_parser_at.
    rewrite Ha, advance_parser_at. apply ParseProgram_from_loop.
Qed.

(** X14.  A let statement with its identifier and its assignment sign, or a
    return statement, at the head of tokens with no semicolon among the
    tokens that follow: [ParseProgram] never returns, whatever the
    fuel. *)
Theorem ParseProgram_hangs_on_open_statement
        (fuel : nat) (first ident assign : Token) (es : list Token) :
  Forall (fun t => Type_ t <> SEMICOLON) es ->
  (Type_ first = LET -> Type_ ident = IDENT -> Type_ assign = ASSIGN ->
   ParseProgram fuel (New (first :: ident :: assign :: es)) = None)
  /\
  (Type_ first = RETURN ->
   ParseProgram fuel (New (first :: es)) = None).
Proof.
  intros Hes. split.
  - intros Hlet Hident Hassign.
    destruct fuel as [|fuel]; [reflexivity|].
    rewrite ParseProgram_eq, !New_parser_at, ParseProgram_loop_step.
    simpl curToken. rewrite LET_not_EOF, parseStatement_eq by assumption.
    simpl curToken. rewrite Hlet, parseLetStatment_eq, expectPeek_parser_at.
    simpl hd. rewrite Hident, TokenType_eqb_refl, expectPeek_parser_at.
    simpl hd. rewrite Hassign, TokenType_eqb_refl.
    rewrite skip_to_SEMICOLON_diverges; [reflexivity|].
    constructor; auto. unfold not_SEMICOLON. rewrite Hassign. discriminate.
  - intros Hret.
    destruct fuel as [|fuel]; [reflexivity|].
    rewrite ParseProgram_eq, !New_parser_at, ParseProgram_loop_step.
    simpl curToken. rewrite RETURN_not_EOF, parseStatement_eq by assumption.
    simpl curToken. rewrite Hret, parseReturnStatment_eq, advance_parser_at.
    now rewrite skip_to_SEMICOLON_diverges.
Qed.

(** X15.  [New] reads two tokens: the current token of the parser it
    returns is the first token of the lexer, its peek token the second,
    with the end-of-input token for each one that the lexer does not
    have; the other tokens are left in the lexer; there is no
    diagnostic. *)
Theorem New_reads_two_tokens (lx : Lexer) :
  curToken (New lx) = nth 0 lx EOF_Token
  /\ peekToken (New lx) = nth 1 lx EOF_Token
  /\ l (New lx) = skipn 2 lx
  /\ errors (New lx) = [].
Proof.
  rewrite New_parser_at. destruct lx as [|a [|b lx]]; now repeat split.
Qed.

End Statements.

(** * Further properties of the shell *)

Lemma ParseProgram_post {decls : Decls}
      (fuel : nat) (p p' : Parser) (program : Program) :
  ParseProgram fuel p = Some (program, p') ->
  Forall built_by_parser (Statements program)
  /\ List.length (errors p')
     = List.length (errors p)
       + List.length (filter is_nil_let (Statements program)).
Proof.
  rewrite ParseProgram_eq.
  destruct (ParseProgram_loop fuel [] p) as [[stmts q]|] eqn:Hloop;
    [|discriminate].
  intros H; injection H as <- <-. simpl.
  eapply ParseProgram_loop_post in Hloop; [|constructor].
  destruct Hloop as (Hb & Hcount & _). simpl in Hcount.
  split; [exact Hb|lia].
Qed.

Lemma no_nil_let_holds_node (stmts : list Statement) :
  Forall built_by_parser stmts ->
  List.length (filter is_nil_let stmts) = 0 ->
  Forall holds_node stmts.
Proof.
  induction 1 as [|s stmts Hs Hstmts IH]; intros Hcount; constructor.
  - destruct s as [[node|]|[node|]| |]; simpl in *;
      try exact I; try contradiction; discriminate.
  - apply IH. simpl in Hcount. destruct (is_nil_let s); simpl in *; lia.
Qed.

Section ShellCoverage.
Context {decls : Decls}.
Variable lexer_New : string -> Lexer.
Variable Object : Type.
Variable Eval : Program -> option Object.
Variable Inspect : Object -> string.
Variable Program_String : Program -> string.

#[local] Abbreviation Start_line' :=
  (Start_line lexer_New Eval Inspect Program_String).
#[local] Abbreviation Start' :=
  (Start lexer_New Eval Inspect Program_String).

Lemma Start_line_Eval_calls (fuel : nat) (line : string)
      (events : list Event) (program : Program) :
  Start_line' fuel line = Some events ->
  In program (Eval_calls events) ->
  exists p',
    ParseProgram fuel (New (lexer_New line)) = Some (program, p')
    /\ errors p' = [].
Proof.
  unfold Start_line.
  destruct (ParseProgram fuel (New (lexer_New line))) as [[prog p']|];
    [|discriminate].
  destruct (errors p') as [|msg errs] eqn:HE; simpl.
  - intros H; injection H as <-. simpl. intros [<-|Hin]; [eauto|].
    destruct (Eval prog); simpl in Hin; tauto.
  - intros H; injection H as <-.
    rewrite (printParserErrors_no_Eval (msg :: errs)). intros [].
Qed.

Lemma Start_Eval_calls_lines (fuel : nat) (input : list string)
      (program : Program) :
  In program (Eval_calls (fst (Start' fuel input))) ->
  exists line p',
    In line input
    /\ ParseProgram fuel (New (lexer_New line)) = Some (program, p')
    /\ errors p' = [].
Proof.
  induction input as [|line rest IH]; simpl; [tauto|].
  destruct (Start_line' fuel line) as [events|] eqn:E; simpl; [|tauto].
  destruct (Start' fuel rest) as [events' returns]. simpl in *.
  rewrite Eval_calls_app, in_app_iff. intros [Hin|Hin].
  - eapply Start_line_Eval_calls in Hin; [|exact E].
    destruct Hin as (p' & HP & HE). exists line, p'. auto.
  - destruct (IH Hin) as (line' & p' & Hl & HP & HE).
    exists line', p'. auto.
Qed.

(** X16.  Every statement of every Program that the shell hands to the
    evaluator holds a node: a nil let statement comes with a diagnostic,
    and a line with a diagnostic is not evaluated. *)
Theorem Start_evaluates_no_nil_statement
        (fuel : nat) (input : list string) (program : Program) :
  In program (Eval_calls (fst (Start' fuel input))) ->
  Forall (fun s => match s with
                   | LetStmt (Some _) | ReturnStmt (Some _) => True
                   | _ => False
                   end) (Statements program).
Proof.
  intros Hin.
  apply Start_Eval_calls_lines in Hin.
  destruct Hin as (line & p' & _ & HP & HE).
  apply ParseProgram_post in HP. destruct HP as [Hb Hcount].
  rewrite HE, New_parser_at in Hcount. simpl in Hcount.
  apply no_nil_let_holds_node; auto.
Qed.

(** X17.  A line on which the parser does not return stops the shell for
    good: after the lines before it the shell prints its prompt, and no
    line after it is read, whatever those lines are. *)
Theorem Start_stops_at_hanging_line
        (fuel : nat) (before after : list string) (line : string) :
  ParseProgram fuel (New (lexer_New line)) = None ->
  snd (Start' fuel before) = true ->
  Start' fuel (before ++ line :: after) = (fst (Start' fuel before), false).
Proof.
  intros Hhang.
  assert (Hline : Start_line' fuel line = None)
    by (unfold Start_line; now rewrite Hhang).
  induction before as [|line' before IH]; simpl.
  - now rewrite Hline.
  - destruct (Start_line' fuel line') as [events|]; [|discriminate].
    destruct (Start' fuel before) as [events1 returns1]. simpl in *.
    intros ->. now rewrite IH.
Qed.

(** X18.  Over lines whose tokens are none or end in a semicolon the shell
    returns, with fuel for the tokens of each line: no such line makes it
    hang. *)
Theorem Start_returns_on_terminated_lines
        (fuel : nat) (input : list string) :
  (forall line, In line input ->
     ends_in_SEMICOLON (lexer_New line)
     /\ List.length (lexer_New line) < fuel) ->
  snd (Start' fuel input) = true.
Proof.
  induction input as [|line rest IH]; intros Hlines; [reflexivity|].
  simpl. destruct (Hlines line) as [Hends Hfuel]; [now left|].
  destruct (@ParseProgram_loop_returns decls
              (List.length (lexer_New line)) (lexer_New line) fuel [] [])
    as (stmts & p' & Hrun); auto.
  unfold Start_line.
  rewrite ParseProgram_eq, New_parser_at, Hrun.
  assert (Hrest : snd (Start' fuel rest) = true)
    by (apply IH; intros line' Hin; apply Hlines; now right).
  destruct (negb (List.length (errors p') =? 0));
    destruct (Start' fuel rest) as [events' returns]; exact Hrest.
Qed.

End ShellCoverage.

(** ** [nextToken] *)

Lemma nextTokens_parser_at (n : nat) :
  forall (errs : list string) (ts : list Token),
    nextTokens n (parser_at errs ts) = Some (tt, parser_at errs (skipn n ts)).
Proof.
  induction n as [|n IH]; intros errs ts; [reflexivity|].
  simpl. unfold bind, nextToken, modify.
  rewrite advance_parser_at_tl, IH. destruct ts; [|reflexivity].
  simpl. now rewrite skipn_nil.
Qed.

Lemma hd_skipn (n : nat) :
  forall ts : list Token, hd EOF_Token (skipn n ts) = nth n ts EOF_Token.
Proof.
  induction n as [|n IH]; intros [|t ts]; simpl; auto.
Qed.

Lemma tl_skipn (n : nat) :
  forall ts : list Token, tl (skipn n ts) = skipn (S n) ts.
Proof.
  induction n as [|n IH]; intros [|t ts]; simpl; auto.
Qed.

(** X19.  [nextToken] walks the tokens of the lexer in order, one token a
    call: after [n] calls on the parser that [New] returns the current
    token is the token of index [n], the peek token the one after it, and
    past the last token both are the end-of-input token, for ever.  No
    diagnostic is added. *)
Theorem nextToken_walks_the_tokens {decls : Decls} (n : nat) (lx : Lexer) :
  exists p',
    nextTokens n (New lx) = Some (tt, p')
    /\ curToken p' = nth n lx EOF_Token
    /\ peekToken p' = nth (S n) lx EOF_Token
    /\ l p' = skipn (S (S n)) lx
    /\ errors p' = [].
Proof.
  rewrite New_parser_at, nextTokens_parser_at. eexists.
  split; [reflexivity|]. simpl curToken. simpl peekToken. simpl errors.
  rewrite hd_skipn. repeat split.
  - now rewrite tl_skipn, hd_skipn.
  - simpl l. now rewrite !tl_skipn.
Qed.

(** ** The further properties on the sample inputs *)

(** [ParseProgram_builds_bare_nodes] on the tokens of
    [let x 5; let y = 1; return y;]. *)
Lemma ParseProgram_builds_bare_nodes_witness :
  ParseProgram 13 (New mixed) = Some (mixed_program, mixed_final)
  /\ Forall built_by_parser (Statements mixed_program).
Proof.
  assert (H : ParseProgram 13 (New mixed) = Some (mixed_program, mixed_final))
    by reflexivity.
  split; [exact H|].
  exact (@ParseProgram_builds_bare_nodes sample_Decls 13 (New mixed)
           mixed_final mixed_program H).
Defined.

(** [ParseProgram_one_diagnostic_per_nil_let] on the same tokens: one
    diagnostic, one nil let statement. *)
Lemma ParseProgram_one_diagnostic_per_nil_let_witness :
  ParseProgram 13 (New mixed) = Some (mixed_program, mixed_final)
  /\ List.length (errors mixed_final)
     = List.length (errors (New mixed))
       + List.length (filter is_nil_let (Statements mixed_program)).
Proof.
  assert (H : ParseProgram 13 (New mixed) = Some (mixed_program, mixed_final))
    by reflexivity.
  split; [exact H|].
  exact (@ParseProgram_one_diagnostic_per_nil_let sample_Decls 13 (New mixed)
           mixed_final mixed_program H).
Defined.

(** [ParseProgram_stops_at_EOF] on the same tokens. *)
Lemma ParseProgram_stops_at_EOF_witness :
  ParseProgram 13 (New mixed) = Some (mixed_program, mixed_final)
  /\ Type_ (curToken mixed_final) = EOF.
Proof.
  assert (H : ParseProgram 13 (New mixed) = Some (mixed_program, mixed_final))
    by reflexivity.
  split; [exact H|].
  exact (@ParseProgram_stops_at_EOF sample_Decls 13 (New mixed)
           mixed_final mixed_program H).
Defined.

(** [parseReturnStatment_returns_iff] on the parser over [return 5;]. *)
Lemma parseReturnStatment_returns_iff_witness :
  (Exists (fun t => Type_ t = SEMICOLON)
     (peekToken (New return_5) :: l (New return_5))
   /\ exists fuel r, parseReturnStatment fuel (New return_5) = Some r)
  /\
  (parseReturnStatment 2 (New return_5)
   = Some (Some (Build_ReturnStatement (tok RETURN "return") None),
           parser_at [] [tok SEMICOLON ";"])
   /\ Some (Build_ReturnStatement (tok RETURN "return") None)
      = Some (Build_ReturnStatement (curToken (New return_5)) None)
   /\ errors (parser_at [] [tok SEMICOLON ";"]) = errors (New return_5)
   /\ Type_ (curToken (parser_at [] [tok SEMICOLON ";"])) = SEMICOLON).
Proof.
  assert (Hex : Exists (fun t => Type_ t = SEMICOLON)
                  (peekToken (New return_5) :: l (New return_5)))
    by (right; left; reflexivity).
  assert (Hrun : parseReturnStatment 2 (New return_5)
                 = Some (Some (Build_ReturnStatement (tok RETURN "return")
                                 None),
                         parser_at [] [tok SEMICOLON ";"]))
    by reflexivity.
  split; (split; [assumption|]).
  - exact (proj2 (proj1 (parseReturnStatment_returns_iff (New return_5)))
             Hex).
  - exact (proj2 (parseReturnStatment_returns_iff (New return_5)) 2 _ _ Hrun).
Defined.

(** [parseLetStatment_gives_up] on the parser over [let 5;], with no
    identifier, and on the parser over [let x 5;], with no assignment
    sign. *)
Lemma parseLetStatment_gives_up_witness :
  (Type_ (peekToken (New let_5)) <> IDENT
   /\ parseLetStatment 0 (New let_5)
      = Some (None,
              parser_at
                ["expected next token to be IDENT, got INT instead"%string]
                let_5))
  /\
  (Type_ (peekToken (New let_x_no_assign)) = IDENT
   /\ Type_ (hd EOF_Token (l (New let_x_no_assign))) <> ASSIGN
   /\ exists p',
        parseLetStatment 0 (New let_x_no_assign) = Some (None, p')
        /\ errors p'
           = ["expected next token to be ASSIGN, got INT instead"%string]
        /\ curToken p' = tok IDENT "x"
        /\ peekToken p' :: l p' = [tok INT "5"; tok SEMICOLON ";"]).
Proof.
  assert (H1 : Type_ (peekToken (New let_5)) <> IDENT) by discriminate.
  assert (H2 : Type_ (hd EOF_Token (l (New let_x_no_assign))) <> ASSIGN)
    by discriminate.
  split; (split; [assumption || reflexivity|]).
  - exact (proj1 (@parseLetStatment_gives_up sample_Decls 0 (New let_5)) H1).
  - split; [exact H2|].
    exact (proj2 (@parseLetStatment_gives_up sample_Decls 0
                    (New let_x_no_assign)) eq_refl H2).
Defined.

(** [ParseProgram_let_then_rest] on the tokens of [let x = 5; return 5;]. *)
Lemma ParseProgram_let_then_rest_witness :
  (Forall (fun t => Type_ t <> SEMICOLON) [tok INT "5"]
   /\ List.length [tok INT "5"] + 1 < 5)
  /\ ParseProgram 6 (New (let_x_5 ++ return_5))
     = Some ({| Statements :=
                  [ LetStmt (Some (Build_LetStatement (tok LET "let")
                      (Some {| Identifier_Token := tok IDENT "x";
                               Identifier_Value := "x" |}) None));
                    ReturnStmt (Some (Build_ReturnStatement
                                        (tok RETURN "return") None)) ] |},
             parser_at [] []).
Proof.
  assert (Hes : Forall (fun t => Type_ t <> SEMICOLON) [tok INT "5"])
    by (repeat constructor; discriminate).
  assert (Hfuel : List.length [tok INT "5"] + 1 < 5) by (simpl; lia).
  split; [now split|].
  exact (@ParseProgram_let_then_rest sample_Decls 5
           (tok LET "let") (tok IDENT "x") (tok ASSIGN "=")
           (tok SEMICOLON ";") [tok INT "5"] return_5
           eq_refl eq_refl eq_refl Hes eq_refl Hfuel).
Defined.

(** [ParseProgram_return_then_rest] on the tokens of
    [return 5; let x = 5;]. *)
Lemma ParseProgram_return_then_rest_witness :
  (Forall (fun t => Type_ t <> SEMICOLON) [tok INT "5"]
   /\ List.length [tok INT "5"] < 6)
  /\ ParseProgram 7 (New (return_5 ++ let_x_5))
     = Some ({| Statements :=
                  [ ReturnStmt (Some (Build_ReturnStatement
                                        (tok RETURN "return") None));
                    LetStmt (Some (Build_LetStatement (tok LET "let")
                      (Some {| Identifier_Token := tok IDENT "x";
                               Identifier_Value := "x" |}) None)) ] |},
             parser_at [] []).
Proof.
  assert (Hes : Forall (fun t => Type_ t <> SEMICOLON) [tok INT "5"])
    by (repeat constructor; discriminate).
  assert (Hfuel : List.length [tok INT "5"] < 6) by (simpl; lia).
  split; [now split|].
  exact (@ParseProgram_return_then_rest sample_Decls 6
           (tok RETURN "return") (tok SEMICOLON ";") [tok INT "5"] let_x_5
           eq_refl Hes eq_refl Hfuel).
Defined.

(** [ParseProgram_after_bad_let] on the tokens of [let 5;] and of
    [let x 5;]. *)
Lemma ParseProgram_after_bad_let_witness :
  (Type_ (hd EOF_Token [tok INT "5"; tok SEMICOLON ";"]) <> IDENT
   /\ ParseProgram 4 (New let_5)
      = Some ({| Statements := [LetStmt None] |},
              parser_at
                ["expected next token to be IDENT, got INT instead"%string]
                []))
  /\
  (Type_ (hd EOF_Token [tok INT "5"; tok SEMICOLON ";"]) <> ASSIGN
   /\ ParseProgram 4 (New let_x_no_assign)
      = Some ({| Statements := [LetStmt None] |},
              parser_at
                ["expected next token to be ASSIGN, got INT instead"%string]
                [])).
Proof.
  assert (H1 : Type_ (hd EOF_Token [tok INT "5"; tok SEMICOLON ";"]) <> IDENT)
    by discriminate.
  assert (H2 : Type_ (hd EOF_Token [tok INT "5"; tok SEMICOLON ";"])
               <> ASSIGN)
    by discriminate.
  split; (split; [assumption|]).
  - exact (proj1 (@ParseProgram_after_bad_let sample_Decls 3
                    (tok LET "let") (tok IDENT "x")
                    [tok INT "5"; tok SEMICOLON ";"] eq_refl) H1).
  - exact (proj2 (@ParseProgram_after_bad_let sample_Decls 3
                    (tok LET "let") (tok IDENT "x")
                    [tok INT "5"; tok SEMICOLON ";"] eq_refl) eq_refl H2).
Defined.

(** [ParseProgram_hangs_on_open_statement] on the tokens of [let x = 5] and
    of [return 5]. *)
Lemma ParseProgram_hangs_on_open_statement_witness :
  Forall (fun t => Type_ t <> SEMICOLON) [tok INT "5"]
  /\ ParseProgram 100 (New let_x_5_open) = None
  /\ ParseProgram 100 (New return_5_open) = None.
Proof.
  assert (Hes : Forall (fun t => Type_ t <> SEMICOLON) [tok INT "5"])
    by (repeat constructor; discriminate).
  split; [exact Hes|]. split.
  - exact (proj1 (@ParseProgram_hangs_on_open_statement sample_Decls 100
                    (tok LET "let") (tok IDENT "x") (tok ASSIGN "=")
                    [tok INT "5"] Hes) eq_refl eq_refl eq_refl).
  - exact (proj2 (@ParseProgram_hangs_on_open_statement sample_Decls 100
                    (tok RETURN "return") (tok IDENT "x") (tok ASSIGN "=")
                    [tok INT "5"] Hes) eq_refl).
Defined.

(** [Start_evaluates_no_nil_statement] on the session [let x = 5;] then
    [x;] and the Program of its first line. *)
Lemma Start_evaluates_no_nil_statement_witness :
  In let_x_program
     (Eval_calls
        (fst (Start sample_lexer_New no_result show_count no_String 6
                ["let x = 5;"; "x;"]%string)))
  /\ Forall (fun s => match s with
                      | LetStmt (Some _) | ReturnStmt (Some _) => True
                      | _ => False
                      end) (Statements let_x_program).
Proof.
  assert (Hin : In let_x_program
                  (Eval_calls
                     (fst (Start sample_lexer_New no_result show_count
                             no_String 6 ["let x = 5;"; "x;"]%string))))
    by (left; reflexivity).
  split; [exact Hin|].
  exact (@Start_evaluates_no_nil_statement sample_Decls sample_lexer_New nat
           no_result show_count no_String 6 ["let x = 5;"; "x;"]%string
           let_x_program Hin).
Defined.

(** [Start_stops_at_hanging_line] on the session [x;], [let x = 5] with no
    semicolon, [x;]: the last line is not read. *)
Lemma Start_stops_at_hanging_line_witness :
  (ParseProgram 6 (New (open_lexer_New "let x = 5")) = None
   /\ snd (Start open_lexer_New no_result show_count no_String 6
             ["x;"%string]) = true)
  /\ Start open_lexer_New no_result show_count no_String 6
       (["x;"%string] ++ "let x = 5"%string :: ["x;"%string])
     = ([Print ">>"; Eval_call {| Statements := [] |}; Print ">>"], false).
Proof.
  split; [split; reflexivity|].
  exact (@Start_stops_at_hanging_line sample_Decls open_lexer_New nat
           no_result show_count no_String 6 ["x;"%string] ["x;"%string]
           "let x = 5" eq_refl eq_refl).
Defined.

(** [Start_returns_on_terminated_lines] on the session [let x = 5;] then
    [x;]. *)
Lemma Start_returns_on_terminated_lines_witness :
  (forall line, In line ["let x = 5;"; "x;"]%string ->
     ends_in_SEMICOLON (sample_lexer_New line)
     /\ List.length (sample_lexer_New line) < 6)
  /\ snd (Start sample_lexer_New no_result show_count no_String 6
            ["let x = 5;"; "x;"]%string) = true.
Proof.
  assert (H : forall line, In line ["let x = 5;"; "x;"]%string ->
                ends_in_SEMICOLON (sample_lexer_New line)
                /\ List.length (sample_lexer_New line) < 6).
  { intros line [<-|[<-|[]]]; split; simpl; try reflexivity; lia. }
  split; [exact H|].
  exact (@Start_returns_on_terminated_lines sample_Decls sample_lexer_New nat
           no_result show_count no_String 6 ["let x = 5;"; "x;"]%string H).
Defined.

(** [parseLetStatment_returns_iff] on the parser over [let x = 5;], which
    has a semicolon to come. *)
Lemma parseLetStatment_returns_iff_witness :
  Exists (fun t => Type_ t = SEMICOLON) (l (New let_x_5))
  /\ exists fuel r, parseLetStatment fuel (New let_x_5) = Some r.
Proof.
  assert (Hex : Exists (fun t => Type_ t = SEMICOLON) (l (New let_x_5)))
    by (right; right; left; reflexivity).
  split; [exact Hex|].
  exact (proj2 (@parseLetStatment_returns_iff sample_Decls (New let_x_5))
           (or_intror (or_intror Hex))).
Defined.
